(** * Instance manager core: replication slots, status probe, replica
    configuration and postmaster lifecycle

    A shallow embedding of

    - [internal/management/controller/slots/reconciler/replicationslot.go]
    - [pkg/management/postgres/probes.go]
    - [pkg/management/postgres/configuration.go]
    - [internal/cmd/manager/instance/run/lifecycle/lifecycle.go]

    Go values are embedded as follows: [string] is [string], a nil-able
    [error] is [option error], a [(T, error)] result is a pair, or a sum
    [T + error] where the value is only looked at when the error is nil,
    a Go [map[string]T] is a [gmap string T] read with the zero value as
    default, and a call on something outside the function (the slot
    manager, the SQL connection, the file system) is a function of an
    explicit state or environment, with a trace of the calls made where
    the order of the calls matters. *)

From Stdlib Require Import ZArith.
From stdpp Require Import base option list strings pretty gmap.

Open Scope string_scope.
Open Scope list_scope.

(** ** Errors *)

(** A Go [error]: a message, or a message wrapping a cause as
    [fmt.Errorf("...: %w", err)] builds it. *)
Inductive error : Type :=
| NewError (msg : string)
| Wrapf (msg : string) (cause : error).

(** The text [err.Error()] prints. *)
Fixpoint Error (e : error) : string :=
  match e with
  | NewError msg => msg
  | Wrapf msg cause => msg +:+ ": " +:+ Error cause
  end.

(** The double quote and the line feed. *)
Definition quote : string := String (Ascii.ascii_of_nat 34) EmptyString.
Definition newline : string := String (Ascii.ascii_of_nat 10) EmptyString.

(** A Go call either returns or panics. *)
Inductive outcome (A : Type) : Type :=
| Returned (a : A)
| Panicked.

Arguments Returned {A} _.
Arguments Panicked {A}.

(** ** Replication slot reconciler *)

Module apiv1.

(** [ReplicationSlotsHAConfiguration], with the field the reconciler reads. *)
Record ReplicationSlotsHAConfiguration : Type := {
  Enabled : bool
}.

(** [ReplicationSlotsConfiguration]; the pointer field is an [option]. *)
Record ReplicationSlotsConfiguration : Type := {
  HighAvailability : option ReplicationSlotsHAConfiguration
}.

(** [LDAPBindAsAuth], [LDAPBindSearchAuth] and [LDAPConfig]. *)
Record LDAPBindAsAuth : Type := {
  Prefix : string;
  Suffix : string
}.

Record LDAPBindSearchAuth : Type := {
  BaseDN : string;
  BindDN : string;
  SearchAttribute : string;
  SearchFilter : string
}.

Record LDAPConfig : Type := {
  Server : string;
  Port : Z;
  Scheme : string;
  TLS : bool;
  BindAsAuth : option LDAPBindAsAuth;
  BindSearchAuth : option LDAPBindSearchAuth
}.

(** The type [PostgresConfiguration], with the fields the host-based access rules
    are made from. *)
Record PostgresConfigurationSpec : Type := {
  PgHBA : list string;
  LDAP : option LDAPConfig
}.

Record ClusterSpec : Type := {
  ReplicationSlots : option ReplicationSlotsConfiguration;
  PostgresConfiguration : PostgresConfigurationSpec
}.

Record ClusterStatus : Type := {
  CurrentPrimary : string;
  TargetPrimary : string;
  InstanceNames : list string
}.

Record Cluster : Type := {
  Spec : ClusterSpec;
  Status : ClusterStatus
}.

(** The method [Cluster.GetSlotNameFromInstanceName] is declared in the
    [api/v1] package, outside the files embedded here; the reconciler is
    verified for every implementation of it. *)
Class SlotNaming : Type := {
  GetSlotNameFromInstanceName : Cluster -> string -> string
}.

(** The methods [Cluster.GetPostgresqlVersion] and
    [Cluster.GetEnableLDAPAuth], declared in the same package and
    likewise outside the files embedded here. *)
Class ClusterMethods : Type := {
  GetPostgresqlVersion : Cluster -> Z + error;
  GetEnableLDAPAuth : Cluster -> bool
}.

End apiv1.

Module infrastructure.

(** [infrastructure.ReplicationSlot], with the fields the reconciler reads. *)
Record ReplicationSlot : Type := {
  SlotName : string;
  Active : bool
}.

#[global] Instance ReplicationSlot_eq_dec : EqDecision ReplicationSlot.
Proof. solve_decision. Defined.

Record ReplicationSlotList : Type := {
  Items : list ReplicationSlot
}.

(** Modelled from the spec: the method [ReplicationSlotList.Has], which
    is missing from the embedded files.  The reconciler is to "create any
    expected slot missing from the existing set", a slot being known by
    its name: [Has] tells whether a slot of that name is listed. *)
Definition Has (sl : ReplicationSlotList) (name : string) : bool :=
  existsb (fun s => String.eqb (SlotName s) name) (Items sl).

(** The [infrastructure.Manager] interface.  An implementation owns a
    state [S] (the engine behind it) which every call may read and
    change; each call may fail. *)
Record Manager (S : Type) : Type := {
  List : apiv1.ReplicationSlotsConfiguration -> S ->
         (ReplicationSlotList + error) * S;
  Create : ReplicationSlot -> S -> option error * S;
  Delete : ReplicationSlot -> S -> option error * S
}.

Arguments List {S} _ _ _.
Arguments Create {S} _ _ _.
Arguments Delete {S} _ _ _.

(** The calls made on a manager, in the order they were made. *)
Inductive Call : Type :=
| CallList
| CallCreate (slot : ReplicationSlot)
| CallDelete (slot : ReplicationSlot).

#[global] Instance Call_eq_dec : EqDecision Call.
Proof. solve_decision. Defined.

End infrastructure.

Module reconciler.

Import apiv1 infrastructure.

Section Reconciler.

Context {S : Type} (manager : Manager S) `{naming : SlotNaming}.

(** Reading [expectedSlots[name]] of a Go [map[string]bool]. *)
Definition expectedHas (expectedSlots : gmap string bool) (name : string) : bool :=
  default false (expectedSlots !! name).

(** The first loop of [reconcilePrimaryReplicationSlots]: "Add every slot
    that is missing".  It returns the map of expected slots as filled so
    far and the error of the first failed [Create], with the manager
    state and the calls made. *)
Fixpoint createMissingSlots (cluster : Cluster) (currentSlots : ReplicationSlotList)
    (names : list string) (expectedSlots : gmap string bool)
    (st : S) (tr : list Call) : gmap string bool * option error * S * list Call :=
  match names with
  | [] => (expectedSlots, None, st, tr)
  | instanceName :: rest =>
      if String.eqb instanceName (CurrentPrimary (Status cluster)) then
        createMissingSlots cluster currentSlots rest expectedSlots st tr
      else
        let slotName := GetSlotNameFromInstanceName cluster instanceName in
        let expectedSlots := <[slotName := true]> expectedSlots in
        if Has currentSlots slotName then
          createMissingSlots cluster currentSlots rest expectedSlots st tr
        else
          let slot := {| SlotName := slotName; Active := false |} in
          match Create manager slot st with
          | (Some err, st) =>
              (expectedSlots,
               Some (Wrapf "updating primary HA replication slots" err),
               st, tr ++ [CallCreate slot])
          | (None, st) =>
              createMissingSlots cluster currentSlots rest expectedSlots
                st (tr ++ [CallCreate slot])
          end
  end.

(** The second loop: "Delete any replication slots in the instance that is
    not from an existing cluster instance". *)
Fixpoint deleteUnexpectedSlots (expectedSlots : gmap string bool)
    (items : list ReplicationSlot) (st : S) (tr : list Call)
    : option error * S * list Call :=
  match items with
  | [] => (None, st, tr)
  | slot :: rest =>
      if negb (expectedHas expectedSlots (SlotName slot)) then
        if Active slot then
          deleteUnexpectedSlots expectedSlots rest st tr
        else
          match Delete manager slot st with
          | (Some err, st) =>
              (Some (Wrapf ("failure deleting replication slot "
                              +:+ quote +:+ SlotName slot +:+ quote) err),
               st, tr ++ [CallDelete slot])
          | (None, st) =>
              deleteUnexpectedSlots expectedSlots rest st (tr ++ [CallDelete slot])
          end
      else
        deleteUnexpectedSlots expectedSlots rest st tr
  end.

(** [dropPrimaryReplicationSlots]: logs and returns nil. *)
Definition dropPrimaryReplicationSlots (cluster : Cluster) (st : S) (tr : list Call)
    : option error * S * list Call :=
  (None, st, tr).

(** [reconcilePrimaryReplicationSlots].  The caller has checked that
    [cluster.Spec.ReplicationSlots] and its [HighAvailability] are not
    nil; the two pointees are passed as [slots] and [ha]. *)
Definition reconcilePrimaryReplicationSlots (cluster : Cluster)
    (slots : ReplicationSlotsConfiguration) (ha : ReplicationSlotsHAConfiguration)
    (st : S) (tr : list Call) : option error * S * list Call :=
  if negb (Enabled ha) then dropPrimaryReplicationSlots cluster st tr
  else
    match List manager slots st with
    | (inr err, st) => (Some err, st, tr ++ [CallList])
    | (inl currentSlots, st) =>
        match createMissingSlots cluster currentSlots
                (InstanceNames (Status cluster)) ∅ st (tr ++ [CallList]) with
        | (_, Some err, st, tr) => (Some err, st, tr)
        | (expectedSlots, None, st, tr) =>
            deleteUnexpectedSlots expectedSlots (Items currentSlots) st tr
        end
    end.

(** [ReconcileReplicationSlots]. *)
Definition ReconcileReplicationSlots (instanceName : string) (cluster : Cluster)
    (st : S) : option error * S * list Call :=
  match ReplicationSlots (Spec cluster) with
  | None => (None, st, [])
  | Some slots =>
      match HighAvailability slots with
      | None => (None, st, [])
      | Some ha =>
          if String.eqb (CurrentPrimary (Status cluster)) instanceName
             || String.eqb (TargetPrimary (Status cluster)) instanceName
          then reconcilePrimaryReplicationSlots cluster slots ha st []
          else (None, st, [])
      end
  end.

End Reconciler.

(** The slots a trace asked to create, and those it asked to delete. *)
Definition created (tr : list Call) : list ReplicationSlot :=
  omap (fun c => match c with CallCreate s => Some s | _ => None end) tr.

Definition deleted (tr : list Call) : list ReplicationSlot :=
  omap (fun c => match c with CallDelete s => Some s | _ => None end) tr.

(** Instances among [names] other than the current primary. *)
Definition nonPrimary (cluster : Cluster) (names : list string) : list string :=
  filter (fun n => n ≠ CurrentPrimary (Status cluster)) names.

(** The names the reconciler expects: one per listed instance other than
    the current primary. *)
Definition expectedSlotNames `{naming : SlotNaming} (cluster : Cluster) : list string :=
  map (GetSlotNameFromInstanceName cluster)
      (nonPrimary cluster (InstanceNames (Status cluster))).

(** The slots of [items] that are inactive and whose name is not expected. *)
Definition toDelete (expectedSlots : gmap string bool) (items : list ReplicationSlot)
    : list ReplicationSlot :=
  filter (fun s => expectedHas expectedSlots (SlotName s) = false ∧ Active s = false) items.

(** An in-memory manager whose calls always succeed: its state is the
    list of slots of the engine. *)
Definition memoryManager : Manager (list ReplicationSlot) := {|
  List := fun _ st => (inl {| Items := st |}, st);
  Create := fun slot st => (None, st ++ [slot]);
  Delete := fun slot st =>
    (None, filter (fun s => SlotName s ≠ SlotName slot) st)
|}.

(** A manager over the same state on which every [Delete] is refused. *)
Definition refusingManager : Manager (list ReplicationSlot) := {|
  List := fun _ st => (inl {| Items := st |}, st);
  Create := fun slot st => (None, st ++ [slot]);
  Delete := fun slot st => (Some (NewError "replication slot is busy"), st)
|}.

(** A naming of slots by a fixed prefix put before the instance name. *)
Definition prefixNaming (prefix : string) : SlotNaming := {|
  GetSlotNameFromInstanceName := fun _ instanceName => prefix +:+ instanceName
|}.

(** A cluster with the slot feature switched on. *)
Definition haCluster (primary target : string) (names : list string) : Cluster := {|
  Spec := {| ReplicationSlots :=
               Some {| HighAvailability := Some {| Enabled := true |} |};
             PostgresConfiguration := {| PgHBA := []; LDAP := None |} |};
  Status := {| CurrentPrimary := primary; TargetPrimary := target;
               InstanceNames := names |}
|}.

End reconciler.

(** ** Status probe *)

Module postgres.

(** [postgres.PgStatReplication]: a row of [pg_stat_replication] as the
    probe scans it.  An LSN is kept as the text the engine prints; lags
    are durations in nanoseconds. *)
Record PgStatReplication : Type := {
  ApplicationName : string;
  State : string;
  SentLsn : string;
  WriteLsn : string;
  FlushLsn : string;
  ReplayLsnOfFollower : string;
  WriteLag : Z;
  FlushLag : Z;
  ReplayLag : Z;
  SyncState : string;
  SyncPriority : Z
}.

(** [postgres.PostgresqlStatus], with the fields the probe assigns.
    [Pod] holds the name of the pod, times are the text the engine
    prints, and a nil slice is [None]. *)
Record PostgresqlStatus : Type := {
  Pod : string;
  InstanceManagerVersion : string;
  IsPgRewindRunning : bool;
  SystemID : string;
  IsPrimary : bool;
  PendingRestart : bool;
  PendingRestartForDecrease : bool;
  TotalInstanceSize : string;
  LastArchivedWAL : string;
  LastArchivedWALTime : string;
  LastFailedWAL : string;
  LastFailedWALTime : string;
  IsArchivingWAL : bool;
  CurrentWAL : string;
  CurrentLsn : string;
  TimeLineID : Z;
  ReceivedLsn : string;
  ReplayLsn : string;
  ReplayPaused : bool;
  IsWalReceiverActive : bool;
  ReplicationInfo : option (list PgStatReplication);
  ReadyWALFiles : Z;
  InstanceArch : string;
  ExecutableHash : string;
  IsInstanceManagerUpgrading : bool
}.

(** The method [LSN.Less] is declared with the [LSN] type in
    [pkg/postgres], outside the files embedded here; the probe is
    verified for every implementation of it. *)
Class LSNOrder : Type := {
  Less : string -> string -> bool
}.

End postgres.

Module probes.

Import postgres.

(** The part of [postgres.Instance] the probe reads. *)
Record Instance : Type := {
  PodName : string;
  ClusterName : string;
  PgData : string;
  PgRewindIsRunning : bool;
  InstanceManagerIsUpgrading : bool
}.

(** What the probe scans from its first query. *)
Record StatusRow : Type := {
  rowSystemID : string;
  rowIsPrimary : bool;
  rowPendingRestart : bool;
  rowTotalInstanceSize : string
}.

(** What [fillStatusFromPrimary] scans from [pg_stat_archiver]. *)
Record ArchiverRow : Type := {
  rowLastArchivedWAL : string;
  rowLastArchivedWALTime : string;
  rowLastFailedWAL : string;
  rowLastFailedWALTime : string;
  rowIsArchivingWAL : bool;
  rowCurrentWAL : string;
  rowCurrentLsn : string;
  rowTimeLineID : Z
}.

(** What [fillStatusFromReplica] scans: the two raw reads and the pause flag. *)
Record ReplicaRow : Type := {
  rowReceivedLsn : string;
  rowReplayLsn : string;
  rowReplayPaused : bool
}.

(** The result set of a [Query]: each row scans or fails to, and
    [rows.Err()] reports at the end. *)
Record Rows (A : Type) : Type := {
  scans : list (A + error);
  rowsErr : option error
}.

Arguments scans {A} _.
Arguments rowsErr {A} _.

(** Everything the probe asks of its surroundings, with the answer each
    request gets: the engine behind [GetSuperUserDB], the control data of
    the data directory ([getEnforcedParametersThroughPgControldata]), the
    archive status directory, the hash of the executable
    ([executablehash.Get], with both values it returns), and the
    constants [versions.Version] and [runtime.GOARCH].  A [Scan] that
    fails is taken to leave its destinations as they were. *)
Record Env : Type := {
  Version : string;
  GOARCH : string;
  superUserDB : option error;
  statusRow : StatusRow + error;
  decreasedRows : Rows (string * string) + error;
  pgControldata : gmap string string + error;
  archiverRow : ArchiverRow + error;
  replicaRow : ReplicaRow + error;
  walReceiverRow : bool + error;
  replicationRows : Rows PgStatReplication + error;
  archiveStatusFiles : list string + error;
  executableHash : string * option error
}.

(** The requests of a probe. *)
Inductive Call : Type :=
| GetSuperUserDB
| QueryStatus
| QueryDecreasedSettings
| ScanDecreasedSetting
| ErrDecreasedSettings
| PgControldata
| QueryArchiver
| QueryReplica
| QueryWalReceiver
| QueryReplication
| ScanReplication
| ErrReplication
| GetDirectoryContent
| GetExecutableHash.

(** A request made, and the error it returned if it failed. *)
Record Event : Type := {
  call : Call;
  failure : option error
}.

(** Probe code: it reads the trace of the requests made so far and
    extends it. *)
Definition Probe (A : Type) : Type := list Event -> outcome A * list Event.

Definition ret {A : Type} (a : A) : Probe A := fun tr => (Returned a, tr).

Definition bind {A B : Type} (m : Probe A) (f : A -> Probe B) : Probe B :=
  fun tr =>
    match m tr with
    | (Returned a, tr) => f a tr
    | (Panicked, tr) => (Panicked, tr)
    end.

Definition panic {A : Type} : Probe A := fun tr => (Panicked, tr).

Notation "'let*' x ':=' m 'in' k" := (bind m (fun x => k))
  (at level 10, x pattern, m at level 100, k at level 200).

(** A request whose answer is a value or an error. *)
Definition request {A : Type} (c : Call) (answer : A + error) : Probe (A + error) :=
  fun tr =>
    (Returned answer,
     tr ++ [ {| call := c;
                failure := match answer with inl _ => None | inr e => Some e end |} ]).

(** A request whose answer is a value together with an error or nil. *)
Definition requestPair {A : Type} (c : Call) (answer : A * option error)
    : Probe (A * option error) :=
  fun tr => (Returned answer, tr ++ [ {| call := c; failure := snd answer |} ]).

(** A request whose answer is only an error or nil. *)
Definition requestErr (c : Call) (answer : option error) : Probe (option error) :=
  fun tr => (Returned answer, tr ++ [ {| call := c; failure := answer |} ]).

(** Field updates of the snapshot. *)
Definition withIsPgRewindRunning (v : bool) (r : PostgresqlStatus) : PostgresqlStatus :=
  {| Pod := Pod r; InstanceManagerVersion := InstanceManagerVersion r;
     IsPgRewindRunning := v;
     SystemID := SystemID r; IsPrimary := IsPrimary r;
     PendingRestart := PendingRestart r;
     PendingRestartForDecrease := PendingRestartForDecrease r;
     TotalInstanceSize := TotalInstanceSize r;
     LastArchivedWAL := LastArchivedWAL r; LastArchivedWALTime := LastArchivedWALTime r;
     LastFailedWAL := LastFailedWAL r; LastFailedWALTime := LastFailedWALTime r;
     IsArchivingWAL := IsArchivingWAL r; CurrentWAL := CurrentWAL r;
     CurrentLsn := CurrentLsn r; TimeLineID := TimeLineID r;
     ReceivedLsn := ReceivedLsn r; ReplayLsn := ReplayLsn r;
     ReplayPaused := ReplayPaused r; IsWalReceiverActive := IsWalReceiverActive r;
     ReplicationInfo := ReplicationInfo r; ReadyWALFiles := ReadyWALFiles r;
     InstanceArch := InstanceArch r; ExecutableHash := ExecutableHash r;
     IsInstanceManagerUpgrading := IsInstanceManagerUpgrading r |}.

Definition withStatusRow (row : StatusRow) (r : PostgresqlStatus) : PostgresqlStatus :=
  {| Pod := Pod r; InstanceManagerVersion := InstanceManagerVersion r;
     IsPgRewindRunning := IsPgRewindRunning r;
     SystemID := rowSystemID row; IsPrimary := rowIsPrimary row;
     PendingRestart := rowPendingRestart row;
     PendingRestartForDecrease := PendingRestartForDecrease r;
     TotalInstanceSize := rowTotalInstanceSize row;
     LastArchivedWAL := LastArchivedWAL r; LastArchivedWALTime := LastArchivedWALTime r;
     LastFailedWAL := LastFailedWAL r; LastFailedWALTime := LastFailedWALTime r;
     IsArchivingWAL := IsArchivingWAL r; CurrentWAL := CurrentWAL r;
     CurrentLsn := CurrentLsn r; TimeLineID := TimeLineID r;
     ReceivedLsn := ReceivedLsn r; ReplayLsn := ReplayLsn r;
     ReplayPaused := ReplayPaused r; IsWalReceiverActive := IsWalReceiverActive r;
     ReplicationInfo := ReplicationInfo r; ReadyWALFiles := ReadyWALFiles r;
     InstanceArch := InstanceArch r; ExecutableHash := ExecutableHash r;
     IsInstanceManagerUpgrading := IsInstanceManagerUpgrading r |}.

Definition withPendingRestart (v : bool) (r : PostgresqlStatus) : PostgresqlStatus :=
  {| Pod := Pod r; InstanceManagerVersion := InstanceManagerVersion r;
     IsPgRewindRunning := IsPgRewindRunning r;
     SystemID := SystemID r; IsPrimary := IsPrimary r;
     PendingRestart := v;
     PendingRestartForDecrease := PendingRestartForDecrease r;
     TotalInstanceSize := TotalInstanceSize r;
     LastArchivedWAL := LastArchivedWAL r; LastArchivedWALTime := LastArchivedWALTime r;
     LastFailedWAL := LastFailedWAL r; LastFailedWALTime := LastFailedWALTime r;
     IsArchivingWAL := IsArchivingWAL r; CurrentWAL := CurrentWAL r;
     CurrentLsn := CurrentLsn r; TimeLineID := TimeLineID r;
     ReceivedLsn := ReceivedLsn r; ReplayLsn := ReplayLsn r;
     ReplayPaused := ReplayPaused r; IsWalReceiverActive := IsWalReceiverActive r;
     ReplicationInfo := ReplicationInfo r; ReadyWALFiles := ReadyWALFiles r;
     InstanceArch := InstanceArch r; ExecutableHash := ExecutableHash r;
     IsInstanceManagerUpgrading := IsInstanceManagerUpgrading r |}.

Definition withPendingRestartForDecrease (v : bool) (r : PostgresqlStatus)
    : PostgresqlStatus :=
  {| Pod := Pod r; InstanceManagerVersion := InstanceManagerVersion r;
     IsPgRewindRunning := IsPgRewindRunning r;
     SystemID := SystemID r; IsPrimary := IsPrimary r;
     PendingRestart := PendingRestart r;
     PendingRestartForDecrease := v;
     TotalInstanceSize := TotalInstanceSize r;
     LastArchivedWAL := LastArchivedWAL r; LastArchivedWALTime := LastArchivedWALTime r;
     LastFailedWAL := LastFailedWAL r; LastFailedWALTime := LastFailedWALTime r;
     IsArchivingWAL := IsArchivingWAL r; CurrentWAL := CurrentWAL r;
     CurrentLsn := CurrentLsn r; TimeLineID := TimeLineID r;
     ReceivedLsn := ReceivedLsn r; ReplayLsn := ReplayLsn r;
     ReplayPaused := ReplayPaused r; IsWalReceiverActive := IsWalReceiverActive r;
     ReplicationInfo := ReplicationInfo r; ReadyWALFiles := ReadyWALFiles r;
     InstanceArch := InstanceArch r; ExecutableHash := ExecutableHash r;
     IsInstanceManagerUpgrading := IsInstanceManagerUpgrading r |}.

Definition withArchiverRow (row : ArchiverRow) (r : PostgresqlStatus) : PostgresqlStatus :=
  {| Pod := Pod r; InstanceManagerVersion := InstanceManagerVersion r;
     IsPgRewindRunning := IsPgRewindRunning r;
     SystemID := SystemID r; IsPrimary := IsPrimary r;
     PendingRestart := PendingRestart r;
     PendingRestartForDecrease := PendingRestartForDecrease r;
     TotalInstanceSize := TotalInstanceSize r;
     LastArchivedWAL := rowLastArchivedWAL row;
     LastArchivedWALTime := rowLastArchivedWALTime row;
     LastFailedWAL := rowLastFailedWAL row;
     LastFailedWALTime := rowLastFailedWALTime row;
     IsArchivingWAL := rowIsArchivingWAL row; CurrentWAL := rowCurrentWAL row;
     CurrentLsn := rowCurrentLsn row; TimeLineID := rowTimeLineID row;
     ReceivedLsn := ReceivedLsn r; ReplayLsn := ReplayLsn r;
     ReplayPaused := ReplayPaused r; IsWalReceiverActive := IsWalReceiverActive r;
     ReplicationInfo := ReplicationInfo r; ReadyWALFiles := ReadyWALFiles r;
     InstanceArch := InstanceArch r; ExecutableHash := ExecutableHash r;
     IsInstanceManagerUpgrading := IsInstanceManagerUpgrading r |}.

Definition withReplicaRow (row : ReplicaRow) (r : PostgresqlStatus) : PostgresqlStatus :=
  {| Pod := Pod r; InstanceManagerVersion := InstanceManagerVersion r;
     IsPgRewindRunning := IsPgRewindRunning r;
     SystemID := SystemID r; IsPrimary := IsPrimary r;
     PendingRestart := PendingRestart r;
     PendingRestartForDecrease := PendingRestartForDecrease r;
     TotalInstanceSize := TotalInstanceSize r;
     LastArchivedWAL := LastArchivedWAL r; LastArchivedWALTime := LastArchivedWALTime r;
     LastFailedWAL := LastFailedWAL r; LastFailedWALTime := LastFailedWALTime r;
     IsArchivingWAL := IsArchivingWAL r; CurrentWAL := CurrentWAL r;
     CurrentLsn := CurrentLsn r; TimeLineID := TimeLineID r;
     ReceivedLsn := rowReceivedLsn row; ReplayLsn := rowReplayLsn row;
     ReplayPaused := rowReplayPaused row; IsWalReceiverActive := IsWalReceiverActive r;
     ReplicationInfo := ReplicationInfo r; ReadyWALFiles := ReadyWALFiles r;
     InstanceArch := InstanceArch r; ExecutableHash := ExecutableHash r;
     IsInstanceManagerUpgrading := IsInstanceManagerUpgrading r |}.

Definition withReceivedLsn (v : string) (r : PostgresqlStatus) : PostgresqlStatus :=
  {| Pod := Pod r; InstanceManagerVersion := InstanceManagerVersion r;
     IsPgRewindRunning := IsPgRewindRunning r;
     SystemID := SystemID r; IsPrimary := IsPrimary r;
     PendingRestart := PendingRestart r;
     PendingRestartForDecrease := PendingRestartForDecrease r;
     TotalInstanceSize := TotalInstanceSize r;
     LastArchivedWAL := LastArchivedWAL r; LastArchivedWALTime := LastArchivedWALTime r;
     LastFailedWAL := LastFailedWAL r; LastFailedWALTime := LastFailedWALTime r;
     IsArchivingWAL := IsArchivingWAL r; CurrentWAL := CurrentWAL r;
     CurrentLsn := CurrentLsn r; TimeLineID := TimeLineID r;
     ReceivedLsn := v; ReplayLsn := ReplayLsn r;
     ReplayPaused := ReplayPaused r; IsWalReceiverActive := IsWalReceiverActive r;
     ReplicationInfo := ReplicationInfo r; ReadyWALFiles := ReadyWALFiles r;
     InstanceArch := InstanceArch r; ExecutableHash := ExecutableHash r;
     IsInstanceManagerUpgrading := IsInstanceManagerUpgrading r |}.

Definition withIsWalReceiverActive (v : bool) (r : PostgresqlStatus) : PostgresqlStatus :=
  {| Pod := Pod r; InstanceManagerVersion := InstanceManagerVersion r;
     IsPgRewindRunning := IsPgRewindRunning r;
     SystemID := SystemID r; IsPrimary := IsPrimary r;
     PendingRestart := PendingRestart r;
     PendingRestartForDecrease := PendingRestartForDecrease r;
     TotalInstanceSize := TotalInstanceSize r;
     LastArchivedWAL := LastArchivedWAL r; LastArchivedWALTime := LastArchivedWALTime r;
     LastFailedWAL := LastFailedWAL r; LastFailedWALTime := LastFailedWALTime r;
     IsArchivingWAL := IsArchivingWAL r; CurrentWAL := CurrentWAL r;
     CurrentLsn := CurrentLsn r; TimeLineID := TimeLineID r;
     ReceivedLsn := ReceivedLsn r; ReplayLsn := ReplayLsn r;
     ReplayPaused := ReplayPaused r; IsWalReceiverActive := v;
     ReplicationInfo := ReplicationInfo r; ReadyWALFiles := ReadyWALFiles r;
     InstanceArch := InstanceArch r; ExecutableHash := ExecutableHash r;
     IsInstanceManagerUpgrading := IsInstanceManagerUpgrading r |}.

Definition withReplicationInfo (v : option (list PgStatReplication))
    (r : PostgresqlStatus) : PostgresqlStatus :=
  {| Pod := Pod r; InstanceManagerVersion := InstanceManagerVersion r;
     IsPgRewindRunning := IsPgRewindRunning r;
     SystemID := SystemID r; IsPrimary := IsPrimary r;
     PendingRestart := PendingRestart r;
     PendingRestartForDecrease := PendingRestartForDecrease r;
     TotalInstanceSize := TotalInstanceSize r;
     LastArchivedWAL := LastArchivedWAL r; LastArchivedWALTime := LastArchivedWALTime r;
     LastFailedWAL := LastFailedWAL r; LastFailedWALTime := LastFailedWALTime r;
     IsArchivingWAL := IsArchivingWAL r; CurrentWAL := CurrentWAL r;
     CurrentLsn := CurrentLsn r; TimeLineID := TimeLineID r;
     ReceivedLsn := ReceivedLsn r; ReplayLsn := ReplayLsn r;
     ReplayPaused := ReplayPaused r; IsWalReceiverActive := IsWalReceiverActive r;
     ReplicationInfo := v; ReadyWALFiles := ReadyWALFiles r;
     InstanceArch := InstanceArch r; ExecutableHash := ExecutableHash r;
     IsInstanceManagerUpgrading := IsInstanceManagerUpgrading r |}.

Definition withReadyWALFiles (v : Z) (r : PostgresqlStatus) : PostgresqlStatus :=
  {| Pod := Pod r; InstanceManagerVersion := InstanceManagerVersion r;
     IsPgRewindRunning := IsPgRewindRunning r;
     SystemID := SystemID r; IsPrimary := IsPrimary r;
     PendingRestart := PendingRestart r;
     PendingRestartForDecrease := PendingRestartForDecrease r;
     TotalInstanceSize := TotalInstanceSize r;
     LastArchivedWAL := LastArchivedWAL r; LastArchivedWALTime := LastArchivedWALTime r;
     LastFailedWAL := LastFailedWAL r; LastFailedWALTime := LastFailedWALTime r;
     IsArchivingWAL := IsArchivingWAL r; CurrentWAL := CurrentWAL r;
     CurrentLsn := CurrentLsn r; TimeLineID := TimeLineID r;
     ReceivedLsn := ReceivedLsn r; ReplayLsn := ReplayLsn r;
     ReplayPaused := ReplayPaused r; IsWalReceiverActive := IsWalReceiverActive r;
     ReplicationInfo := ReplicationInfo r; ReadyWALFiles := v;
     InstanceArch := InstanceArch r; ExecutableHash := ExecutableHash r;
     IsInstanceManagerUpgrading := IsInstanceManagerUpgrading r |}.

Definition withInstanceArch (v : string) (r : PostgresqlStatus) : PostgresqlStatus :=
  {| Pod := Pod r; InstanceManagerVersion := InstanceManagerVersion r;
     IsPgRewindRunning := IsPgRewindRunning r;
     SystemID := SystemID r; IsPrimary := IsPrimary r;
     PendingRestart := PendingRestart r;
     PendingRestartForDecrease := PendingRestartForDecrease r;
     TotalInstanceSize := TotalInstanceSize r;
     LastArchivedWAL := LastArchivedWAL r; LastArchivedWALTime := LastArchivedWALTime r;
     LastFailedWAL := LastFailedWAL r; LastFailedWALTime := LastFailedWALTime r;
     IsArchivingWAL := IsArchivingWAL r; CurrentWAL := CurrentWAL r;
     CurrentLsn := CurrentLsn r; TimeLineID := TimeLineID r;
     ReceivedLsn := ReceivedLsn r; ReplayLsn := ReplayLsn r;
     ReplayPaused := ReplayPaused r; IsWalReceiverActive := IsWalReceiverActive r;
     ReplicationInfo := ReplicationInfo r; ReadyWALFiles := ReadyWALFiles r;
     InstanceArch := v; ExecutableHash := ExecutableHash r;
     IsInstanceManagerUpgrading := IsInstanceManagerUpgrading r |}.

Definition withExecutableHash (v : string) (r : PostgresqlStatus) : PostgresqlStatus :=
  {| Pod := Pod r; InstanceManagerVersion := InstanceManagerVersion r;
     IsPgRewindRunning := IsPgRewindRunning r;
     SystemID := SystemID r; IsPrimary := IsPrimary r;
     PendingRestart := PendingRestart r;
     PendingRestartForDecrease := PendingRestartForDecrease r;
     TotalInstanceSize := TotalInstanceSize r;
     LastArchivedWAL := LastArchivedWAL r; LastArchivedWALTime := LastArchivedWALTime r;
     LastFailedWAL := LastFailedWAL r; LastFailedWALTime := LastFailedWALTime r;
     IsArchivingWAL := IsArchivingWAL r; CurrentWAL := CurrentWAL r;
     CurrentLsn := CurrentLsn r; TimeLineID := TimeLineID r;
     ReceivedLsn := ReceivedLsn r; ReplayLsn := ReplayLsn r;
     ReplayPaused := ReplayPaused r; IsWalReceiverActive := IsWalReceiverActive r;
     ReplicationInfo := ReplicationInfo r; ReadyWALFiles := ReadyWALFiles r;
     InstanceArch := InstanceArch r; ExecutableHash := v;
     IsInstanceManagerUpgrading := IsInstanceManagerUpgrading r |}.

Definition withIsInstanceManagerUpgrading (v : bool) (r : PostgresqlStatus)
    : PostgresqlStatus :=
  {| Pod := Pod r; InstanceManagerVersion := InstanceManagerVersion r;
     IsPgRewindRunning := IsPgRewindRunning r;
     SystemID := SystemID r; IsPrimary := IsPrimary r;
     PendingRestart := PendingRestart r;
     PendingRestartForDecrease := PendingRestartForDecrease r;
     TotalInstanceSize := TotalInstanceSize r;
     LastArchivedWAL := LastArchivedWAL r; LastArchivedWALTime := LastArchivedWALTime r;
     LastFailedWAL := LastFailedWAL r; LastFailedWALTime := LastFailedWALTime r;
     IsArchivingWAL := IsArchivingWAL r; CurrentWAL := CurrentWAL r;
     CurrentLsn := CurrentLsn r; TimeLineID := TimeLineID r;
     ReceivedLsn := ReceivedLsn r; ReplayLsn := ReplayLsn r;
     ReplayPaused := ReplayPaused r; IsWalReceiverActive := IsWalReceiverActive r;
     ReplicationInfo := ReplicationInfo r; ReadyWALFiles := ReadyWALFiles r;
     InstanceArch := InstanceArch r; ExecutableHash := ExecutableHash r;
     IsInstanceManagerUpgrading := v |}.

Section Probe.

Context `{order : LSNOrder}.

(** [areAllParamsUpdated]: the loop counts the decreased settings whose
    new value is the one the control data holds; a setting missing from
    the control data reads as the empty string. *)
Definition areAllParamsUpdated (decreasedValues pgControldataParams : gmap string string)
    : bool :=
  let readyParams :=
    map_fold (fun setting newValue (readyParams : nat) =>
                if String.eqb (default "" (pgControldataParams !! setting)) newValue
                then Datatypes.S readyParams else readyParams)
             0%nat decreasedValues in
  Nat.eqb readyParams (size decreasedValues).

(** The loop [for rows.Next()] of [GetDecreasedSensibleSettings]. *)
Fixpoint scanDecreasedSettings (scans : list (string * string + error))
    (decreasedSensibleValues : gmap string string)
    : Probe (gmap string string + error) :=
  match scans with
  | [] => ret (inl decreasedSensibleValues)
  | scan :: rest =>
      let* row := request ScanDecreasedSetting scan in
      match row with
      | inr err => ret (inr err)
      | inl (name, newValue) =>
          scanDecreasedSettings rest (<[name := newValue]> decreasedSensibleValues)
      end
  end.

(** [Instance.GetDecreasedSensibleSettings].  The error of the deferred
    [rows.Close()] is stored in a local variable and dropped; the close
    is not recorded. *)
Definition GetDecreasedSensibleSettings (env : Env) : Probe (gmap string string + error) :=
  let* rows := request QueryDecreasedSettings (decreasedRows env) in
  match rows with
  | inr err => ret (inr err)
  | inl rows =>
      let* values := scanDecreasedSettings (scans rows) ∅ in
      match values with
      | inr err => ret (inr err)
      | inl decreasedSensibleValues =>
          let* err := requestErr ErrDecreasedSettings (rowsErr rows) in
          match err with
          | Some err => ret (inr err)
          | None => ret (inl decreasedSensibleValues)
          end
      end
  end.

(** [updateResultForDecrease]: the snapshot is updated in place and the
    error returned; here the updated snapshot comes back with the error. *)
Definition updateResultForDecrease (instance : Instance) (env : Env)
    (result : PostgresqlStatus) : Probe (PostgresqlStatus * option error) :=
  let* decreased := GetDecreasedSensibleSettings env in
  match decreased with
  | inr err => ret (result, Some err)
  | inl decreasedValues =>
      if Nat.eqb (size decreasedValues) 0 then ret (result, None)
      else
        let result := withPendingRestartForDecrease true result in
        if negb (IsPrimary result) then
          let* params := request PgControldata (pgControldata env) in
          match params with
          | inr err => ret (result, Some err)
          | inl pgControldataParams =>
              ret (withPendingRestart
                     (areAllParamsUpdated decreasedValues pgControldataParams) result,
                   None)
          end
        else ret (result, None)
  end.

(** [Instance.fillStatusFromPrimary]. *)
Definition fillStatusFromPrimary (env : Env) (result : PostgresqlStatus)
    : Probe (PostgresqlStatus * option error) :=
  let* err := requestErr GetSuperUserDB (superUserDB env) in
  match err with
  | Some err => ret (result, Some err)
  | None =>
      let* row := request QueryArchiver (archiverRow env) in
      match row with
      | inr err => ret (result, Some err)
      | inl row => ret (withArchiverRow row result, None)
      end
  end.

(** [Instance.IsWALReceiverActive]. *)
Definition IsWALReceiverActive (env : Env) : Probe (bool * option error) :=
  let* err := requestErr GetSuperUserDB (superUserDB env) in
  match err with
  | Some err => ret (false, Some err)
  | None =>
      let* row := request QueryWalReceiver (walReceiverRow env) in
      match row with
      | inr err => ret (false, Some err)
      | inl result => ret (result, None)
      end
  end.

(** [Instance.fillStatusFromReplica].  When [IsWALReceiverActive] fails
    its first result, [false], has already been assigned. *)
Definition fillStatusFromReplica (env : Env) (result : PostgresqlStatus)
    : Probe (PostgresqlStatus * option error) :=
  let* err := requestErr GetSuperUserDB (superUserDB env) in
  match err with
  | Some err => ret (result, Some err)
  | None =>
      let* row := request QueryReplica (replicaRow env) in
      match row with
      | inr err => ret (result, Some err)
      | inl row =>
          let result := withReplicaRow row result in
          let result :=
            if Less (ReceivedLsn result) (ReplayLsn result)
            then withReceivedLsn (ReplayLsn result) result
            else result in
          let* (active, err) := IsWALReceiverActive env in
          let result := withIsWalReceiverActive active result in
          match err with
          | Some err => ret (result, Some err)
          | None => ret (result, None)
          end
      end
  end.

(** [strings.HasSuffix]. *)
Definition HasSuffix (s suffix : string) : bool :=
  let n := String.length s in
  let k := String.length suffix in
  if Nat.leb k n then String.eqb (String.substring (n - k) k s) suffix else false.

(** The loop of [GetWALArchiveCounters]. *)
Fixpoint countArchiveStatus (files : list string) (ready done : Z) : Z * Z :=
  match files with
  | [] => (ready, done)
  | fileName :: rest =>
      if HasSuffix fileName ".ready" then countArchiveStatus rest (ready + 1)%Z done
      else if HasSuffix fileName ".done" then countArchiveStatus rest ready (done + 1)%Z
      else countArchiveStatus rest ready done
  end.

(** [GetWALArchiveCounters]. *)
Definition GetWALArchiveCounters (env : Env) : Probe (Z * Z * option error) :=
  let* files := request GetDirectoryContent (archiveStatusFiles env) in
  match files with
  | inr err => ret (0%Z, 0%Z, Some err)
  | inl files => ret (countArchiveStatus files 0%Z 0%Z, None)
  end.

(** The loop [for rows.Next()] of [fillWalStatus]: the rows scanned so
    far stay in the snapshot when a scan fails. *)
Fixpoint scanReplication (scans : list (PgStatReplication + error))
    (result : PostgresqlStatus) : Probe (PostgresqlStatus * option error) :=
  match scans with
  | [] => ret (result, None)
  | scan :: rest =>
      let* row := request ScanReplication scan in
      match row with
      | inr err => ret (result, Some err)
      | inl pgr =>
          scanReplication rest
            (withReplicationInfo
               (Some (default [] (ReplicationInfo result) ++ [pgr])) result)
      end
  end.

(** [Instance.fillWalStatus].  The error of [Query] is not looked at: on
    a failed query [rows] is nil, and the calls on it panic with a nil
    dereference. *)
Definition fillWalStatus (env : Env) (result : PostgresqlStatus)
    : Probe (PostgresqlStatus * option error) :=
  let* err := requestErr GetSuperUserDB (superUserDB env) in
  match err with
  | Some err => ret (result, Some err)
  | None =>
      let* rows := request QueryReplication (replicationRows env) in
      match rows with
      | inr _ => panic
      | inl rows =>
          let result :=
            match ReplicationInfo result with
            | None => withReplicationInfo (Some []) result
            | Some _ => result
            end in
          let* (result, err) := scanReplication (scans rows) result in
          match err with
          | Some err => ret (result, Some err)
          | None =>
              let* err := requestErr ErrReplication (rowsErr rows) in
              match err with
              | Some err => ret (result, Some err)
              | None =>
                  let* (ready, _, err) := GetWALArchiveCounters env in
                  let result := withReadyWALFiles ready result in
                  match err with
                  | Some err => ret (result, Some err)
                  | None => ret (result, None)
                  end
              end
          end
      end
  end.

(** [Instance.fillStatus]. *)
Definition fillStatus (env : Env) (result : PostgresqlStatus)
    : Probe (PostgresqlStatus * option error) :=
  let* (result, err) :=
    (if IsPrimary result then fillStatusFromPrimary env result
     else fillStatusFromReplica env result) in
  match err with
  | Some err => ret (result, Some err)
  | None => fillWalStatus env result
  end.

(** The snapshot [GetStatus] starts from: the pod name and the version
    of the instance manager, every other field at its zero value. *)
Definition newStatus (instance : Instance) (env : Env) : PostgresqlStatus :=
  {| Pod := PodName instance; InstanceManagerVersion := Version env;
     IsPgRewindRunning := false;
     SystemID := ""; IsPrimary := false;
     PendingRestart := false; PendingRestartForDecrease := false;
     TotalInstanceSize := "";
     LastArchivedWAL := ""; LastArchivedWALTime := "";
     LastFailedWAL := ""; LastFailedWALTime := "";
     IsArchivingWAL := false; CurrentWAL := "";
     CurrentLsn := ""; TimeLineID := 0;
     ReceivedLsn := ""; ReplayLsn := "";
     ReplayPaused := false; IsWalReceiverActive := false;
     ReplicationInfo := None; ReadyWALFiles := 0;
     InstanceArch := ""; ExecutableHash := "";
     IsInstanceManagerUpgrading := false |}.

(** [Instance.GetStatus].  Every [return] of the function gives
    [&result], so the pointer returned is never nil; it is [Some] of the
    snapshot as it stands at that point. *)
Definition GetStatus (instance : Instance) (env : Env)
    : Probe (option PostgresqlStatus * option error) :=
  let result := newStatus instance env in
  if PgRewindIsRunning instance then
    let result := withIsPgRewindRunning true result in
    ret (Some result, None)
  else
    let* err := requestErr GetSuperUserDB (superUserDB env) in
    match err with
    | Some err => ret (Some result, Some err)
    | None =>
        let* row := request QueryStatus (statusRow env) in
        match row with
        | inr err => ret (Some result, Some err)
        | inl row =>
            let result := withStatusRow row result in
            let* (result, err) :=
              (if PendingRestart result
               then updateResultForDecrease instance env result
               else ret (result, None)) in
            match err with
            | Some err => ret (Some result, Some err)
            | None =>
                let* (result, err) := fillStatus env result in
                match err with
                | Some err => ret (Some result, Some err)
                | None =>
                    let result := withInstanceArch (GOARCH env) result in
                    let* (hash, err) :=
                      requestPair GetExecutableHash (executableHash env) in
                    let result := withExecutableHash hash result in
                    match err with
                    | Some err => ret (Some result, Some err)
                    | None =>
                        let result :=
                          withIsInstanceManagerUpgrading
                            (InstanceManagerIsUpgrading instance) result in
                        ret (Some result, None)
                    end
                end
            end
        end
    end.

End Probe.

(** A probe run from the empty trace. *)
Definition run {A : Type} (m : Probe A) : outcome A * list Event := m [].

(** The events of a trace that failed. *)
Definition failures (tr : list Event) : list Event :=
  filter (fun ev => failure ev ≠ None) tr.

(** The value of a hexadecimal digit. *)
Definition hexDigit (c : Ascii.ascii) : option N :=
  let n := Ascii.N_of_ascii c in
  if (48 <=? n)%N && (n <=? 57)%N then Some (n - 48)%N
  else if (65 <=? n)%N && (n <=? 70)%N then Some (n - 55)%N
  else if (97 <=? n)%N && (n <=? 102)%N then Some (n - 87)%N
  else None.

Fixpoint parseHexFrom (s : string) (acc : N) : option N :=
  match s with
  | EmptyString => Some acc
  | String c rest =>
      match hexDigit c with
      | Some d => parseHexFrom rest (16 * acc + d)%N
      | None => None
      end
  end.

Definition parseHex (s : string) : option N :=
  match s with
  | EmptyString => None
  | _ => parseHexFrom s 0%N
  end.

(** The position in the write-ahead log that the text of an LSN denotes:
    two hexadecimal numbers separated by a slash. *)
Definition walPosition (lsn : string) : option N :=
  match String.index 0 "/" lsn with
  | None => None
  | Some i =>
      match parseHex (String.substring 0 i lsn),
            parseHex (String.substring (Datatypes.S i) (String.length lsn - i - 1) lsn) with
      | Some segment, Some displacement => Some (segment * 2 ^ 32 + displacement)%N
      | _, _ => None
      end
  end.

(** Modelled from the spec: the comparison [LSN.Less], which is missing
    from the embedded files.  An LSN is "a monotonically increasing
    position in the write-ahead log, comparable for ordering": two LSNs
    are compared as the positions they denote, and a text that denotes
    none (the empty text of a replica that streams nothing) is not less
    than any other. *)
Definition positionOrder : postgres.LSNOrder := {|
  postgres.Less := fun a b =>
    match walPosition a, walPosition b with
    | Some p, Some q => (p <? q)%N
    | _, _ => false
    end
|}.

(** A replica [p-2] and its surroundings: the engine reports a pending
    restart, [max_connections] is being decreased to 90, the control
    data holds [controlValue] for it, and the two LSN reads are
    [received] and [replayed]. *)
Definition replicaInstance : Instance := {|
  PodName := "p-2"; ClusterName := "p"; PgData := "/var/lib/postgresql/data/pgdata";
  PgRewindIsRunning := false; InstanceManagerIsUpgrading := false
|}.

Definition replicaEnv (controlValue received replayed : string)
    (walReceiver : bool + error) : Env := {|
  Version := "1.9.1"; GOARCH := "amd64";
  superUserDB := None;
  statusRow := inl {| rowSystemID := "7001"; rowIsPrimary := false;
                      rowPendingRestart := true; rowTotalInstanceSize := "29 MB" |};
  decreasedRows := inl {| scans := [inl ("max_connections", "90")]; rowsErr := None |};
  pgControldata := inl {[ "max_connections" := controlValue ]};
  archiverRow := inr (NewError "not a primary");
  replicaRow := inl {| rowReceivedLsn := received; rowReplayLsn := replayed;
                       rowReplayPaused := false |};
  walReceiverRow := walReceiver;
  replicationRows := inl {| scans := []; rowsErr := None |};
  archiveStatusFiles := inl ["000000010000000000000001.done";
                             "000000010000000000000002.ready"];
  executableHash := ("5f70bf18a086007016e948b04aed3b82", None)
|}.

(** The same surroundings, where the query on [pg_stat_replication] fails. *)
Definition brokenReplicationEnv (e : error) : Env := {|
  Version := "1.9.1"; GOARCH := "amd64";
  superUserDB := None;
  statusRow := inl {| rowSystemID := "7001"; rowIsPrimary := false;
                      rowPendingRestart := false; rowTotalInstanceSize := "29 MB" |};
  decreasedRows := inl {| scans := []; rowsErr := None |};
  pgControldata := inl ∅;
  archiverRow := inr (NewError "not a primary");
  replicaRow := inl {| rowReceivedLsn := "0/3000060"; rowReplayLsn := "0/3000000";
                       rowReplayPaused := false |};
  walReceiverRow := inl true;
  replicationRows := inr e;
  archiveStatusFiles := inl [];
  executableHash := ("5f70bf18a086007016e948b04aed3b82", None)
|}.

(** The same instance while [pg_rewind] runs on it. *)
Definition rewindingInstance : Instance := {|
  PodName := "p-2"; ClusterName := "p"; PgData := "/var/lib/postgresql/data/pgdata";
  PgRewindIsRunning := true; InstanceManagerIsUpgrading := false
|}.

(** A trace has stopped at a failed request: the request that returned
    [e] is its last and no request before it failed. *)
Definition abortedAt (P : Call -> Prop) (e : error) (evs : list Event) : Prop :=
  ∃ evs0 c, evs = evs0 ++ [ {| call := c; failure := Some e |} ]
            ∧ P c ∧ failures evs0 = [].

(** What the trace of a probe says of its outcome: no request failed when
    it returned without error, it stopped at the failed request whose
    error it returns, and it panics only at a failed replication query. *)
Definition verdict {A : Type} (errOf : A -> option error)
    (out : outcome A) (evs : list Event) : Prop :=
  match out with
  | Returned a =>
      match errOf a with
      | None => failures evs = []
      | Some e => abortedAt (fun c => c ≠ QueryReplication) e evs
      end
  | Panicked => ∃ e, abortedAt (fun c => c = QueryReplication) e evs
  end.

(** Probe code that, from any trace, has the same outcome and appends the
    same requests, for which [verdict] holds. *)
Definition disciplined {A : Type} (errOf : A -> option error) (m : Probe A) : Prop :=
  ∃ out evs, (∀ tr, m tr = (out, tr ++ evs)) ∧ verdict errOf out evs.

(** The error carried by the shapes of result the probe code returns. *)
Definition errOfSum {A : Type} (a : A + error) : option error :=
  match a with inl _ => None | inr e => Some e end.

End probes.

(** ** Replica configuration and host-based access rules *)

Module configuration.

Import apiv1.

(** Constants of the packages [constants] and [pkg/postgres], declared
    outside the files embedded here. *)
Class Constants : Type := {
  LogPath : string;
  LogFileName : string;
  PostgresqlCustomConfigurationFile : string;
  PostgresqlHBARulesFile : string;
  PostgresqlOverrideConfigurationFile : string
}.

(** [postgres.CreateHBARules], declared in [pkg/postgres]. *)
Class HBARules : Type := {
  CreateHBARules : list string -> string -> string -> string + error
}.

(** The functions through which [configuration.go] reaches the data
    directory, all declared outside the files embedded here:
    [postgresutils.GetMajorVersion],
    [configfile.UpdatePostgresConfigurationFile] with its options and
    the managed options that follow them, [fileutils.WriteStringToFile],
    and [os.Create] followed by [Close].  [S] is the state of the disk. *)
Record FileSystem (S : Type) : Type := {
  GetMajorVersion : string -> S -> (Z + error) * S;
  UpdatePostgresConfigurationFile :
    string -> gmap string string -> list string -> S -> (bool * option error) * S;
  WriteStringToFile : string -> string -> S -> (bool * option error) * S;
  Create : string -> S -> option error * S
}.

Arguments GetMajorVersion {S} _ _ _.
Arguments UpdatePostgresConfigurationFile {S} _ _ _ _ _.
Arguments WriteStringToFile {S} _ _ _ _.
Arguments Create {S} _ _ _.

(** The part of [postgres.Instance] these functions read. *)
Record Instance : Type := {
  PgData : string
}.

(** [path.Join] of a directory and a file name. *)
Definition Join (dir name : string) : string := dir +:+ "/" +:+ name.

(** [strings.ReplaceAll] of a one-character [old]. *)
Fixpoint ReplaceAll (s : string) (old : Ascii.ascii) (new : string) : string :=
  match s with
  | EmptyString => EmptyString
  | String c rest =>
      if Ascii.eqb c old then new +:+ ReplaceAll rest old new
      else String c (ReplaceAll rest old new)
  end.

(** [quoteHbaLiteral]. *)
Definition quoteHbaLiteral (literal : string) : string :=
  let literal := ReplaceAll literal (Ascii.ascii_of_nat 34) (quote +:+ quote) in
  let literal := ReplaceAll literal (Ascii.ascii_of_nat 10) ("\" +:+ newline) in
  quote +:+ literal +:+ quote.

Section Configuration.

Context {S : Type} (fs : FileSystem S).
Context `{consts : Constants} `{methods : ClusterMethods} `{rules : HBARules}.

(** [InstallPgDataFileContent]. *)
Definition InstallPgDataFileContent (pgdata contents destinationFile : string) (st : S)
    : (bool * option error) * S :=
  let targetFile := Join pgdata destinationFile in
  match WriteStringToFile fs targetFile contents st with
  | ((_, Some err), st) => ((false, Some err), st)
  | ((result, None), st) => ((result, None), st)
  end.

(** [buildLDAPConfigString]; reading through the nil [LDAP] pointer
    panics. *)
Definition buildLDAPConfigString (cluster : Cluster) (ldapBindPassword : string)
    : outcome string :=
  if negb (GetEnableLDAPAuth cluster) then Returned ""
  else
    match LDAP (PostgresConfiguration (Spec cluster)) with
    | None => Panicked
    | Some ldapConfig =>
        let ldapConfigString :=
          "host all all 0.0.0.0/0 ldap ldapserver=" +:+ quoteHbaLiteral (Server ldapConfig) in
        let ldapConfigString :=
          if negb (Port ldapConfig =? 0)%Z
          then ldapConfigString +:+ " ldapport=" +:+ pretty (Port ldapConfig)
          else ldapConfigString in
        let ldapConfigString :=
          if negb (String.eqb (Scheme ldapConfig) "")
          then ldapConfigString +:+ " ldapscheme=" +:+ quoteHbaLiteral (Scheme ldapConfig)
          else ldapConfigString in
        let ldapConfigString :=
          if TLS ldapConfig then ldapConfigString +:+ " ldaptls=1" else ldapConfigString in
        let ldapConfigString :=
          match BindAsAuth ldapConfig with
          | Some bindAs =>
              ldapConfigString +:+ " ldapprefix=" +:+ quoteHbaLiteral (Prefix bindAs)
                +:+ " ldapsuffix=" +:+ quoteHbaLiteral (Suffix bindAs)
          | None => ldapConfigString
          end in
        let ldapConfigString :=
          match BindSearchAuth ldapConfig with
          | Some bindSearch =>
              let ldapConfigString :=
                ldapConfigString +:+ " ldapbasedn=" +:+ quoteHbaLiteral (BaseDN bindSearch)
                  +:+ " ldapbinddn=" +:+ quoteHbaLiteral (BindDN bindSearch)
                  +:+ " ldapbindpasswd=" +:+ quoteHbaLiteral ldapBindPassword in
              let ldapConfigString :=
                if negb (String.eqb (SearchFilter bindSearch) "")
                then ldapConfigString +:+ " ldapsearchfilter="
                       +:+ quoteHbaLiteral (SearchFilter bindSearch)
                else ldapConfigString in
              if negb (String.eqb (SearchAttribute bindSearch) "")
              then ldapConfigString +:+ " ldapsearchattribute="
                     +:+ quoteHbaLiteral (SearchAttribute bindSearch)
              else ldapConfigString
          | None => ldapConfigString
          end in
        Returned ldapConfigString
    end.

(** [Instance.GeneratePostgresqlHBA]. *)
Definition GeneratePostgresqlHBA (instance : Instance) (cluster : Cluster)
    (ldapBindPassword : string) : outcome (string * option error) :=
  match GetPostgresqlVersion cluster with
  | inr err => Returned ("", Some err)
  | inl version =>
      let defaultAuthenticationMethod :=
        if (version <? 140000)%Z then "md5" else "scram-sha-256" in
      match buildLDAPConfigString cluster ldapBindPassword with
      | Panicked => Panicked
      | Returned ldapConfigString =>
          match CreateHBARules (PgHBA (PostgresConfiguration (Spec cluster)))
                  defaultAuthenticationMethod ldapConfigString with
          | inl content => Returned (content, None)
          | inr err => Returned ("", Some err)
          end
      end
  end.

(** [Instance.RefreshPGHBA]. *)
Definition RefreshPGHBA (instance : Instance) (cluster : Cluster)
    (ldapBindPassword : string) (st : S) : outcome (bool * option error) * S :=
  match GeneratePostgresqlHBA instance cluster ldapBindPassword with
  | Panicked => (Panicked, st)
  | Returned (_, Some err) => (Returned (false, None), st)
  | Returned (pgHBAContent, None) =>
      match InstallPgDataFileContent (PgData instance) pgHBAContent
              PostgresqlHBARulesFile st with
      | ((postgresHBAChanged, Some err), st) =>
          (Returned (postgresHBAChanged,
                     Some (Wrapf "installing postgresql HBA rules" err)), st)
      | ((postgresHBAChanged, None), st) =>
          (Returned (postgresHBAChanged, None), st)
      end
  end.

(** The value both writers give to [restore_command]. *)
Definition restoreCommand : string :=
  "/controller/manager wal-restore --log-destination "
    +:+ LogPath +:+ "/" +:+ LogFileName +:+ ".json %f %p".

(** The options [configureRecoveryConfFile] builds. *)
Definition recoveryConfOptions (primaryConnInfo slotName : string) : gmap string string :=
  let options : gmap string string :=
    <["recovery_target_timeline" := "latest"]>
      (<["restore_command" := restoreCommand]>
         (<["standby_mode" := "on"]> ∅)) in
  let options :=
    if negb (String.eqb slotName "") then <["primary_slot_name" := slotName]> options
    else options in
  if negb (String.eqb primaryConnInfo "") then <["primary_conninfo" := primaryConnInfo]> options
  else options.

(** [configureRecoveryConfFile]. *)
Definition configureRecoveryConfFile (pgData primaryConnInfo slotName : string) (st : S)
    : (bool * option error) * S :=
  let targetFile := Join pgData "recovery.conf" in
  let options := recoveryConfOptions primaryConnInfo slotName in
  match UpdatePostgresConfigurationFile fs targetFile options
          ["primary_slot_name"; "primary_conninfo"] st with
  | ((_, Some err), st) => ((false, Some err), st)
  | ((changed, None), st) => ((changed, None), st)
  end.

(** The options [configurePostgresOverrideConfFile] builds. *)
Definition overrideConfOptions (primaryConnInfo slotName : string) : gmap string string :=
  let options : gmap string string :=
    <["primary_slot_name" := slotName]>
      (<["recovery_target_timeline" := "latest"]>
         (<["restore_command" := restoreCommand]> ∅)) in
  if negb (String.eqb primaryConnInfo "") then <["primary_conninfo" := primaryConnInfo]> options
  else options.

(** [configurePostgresOverrideConfFile]. *)
Definition configurePostgresOverrideConfFile (pgData primaryConnInfo slotName : string)
    (st : S) : (bool * option error) * S :=
  let targetFile := Join pgData PostgresqlOverrideConfigurationFile in
  let options := overrideConfOptions primaryConnInfo slotName in
  match UpdatePostgresConfigurationFile fs targetFile options [] st with
  | ((_, Some err), st) => ((false, Some err), st)
  | ((changed, None), st) => ((changed, None), st)
  end.

(** [createStandbySignal]. *)
Definition createStandbySignal (pgData : string) (st : S) : option error * S :=
  Create fs (Join pgData "standby.signal") st.

(** [UpdateReplicaConfiguration]. *)
Definition UpdateReplicaConfiguration (pgData primaryConnInfo slotName : string) (st : S)
    : (bool * option error) * S :=
  match GetMajorVersion fs pgData st with
  | (inr err, st) => ((false, Some err), st)
  | (inl major, st) =>
      if (major <? 12)%Z then configureRecoveryConfFile pgData primaryConnInfo slotName st
      else
        match createStandbySignal pgData st with
        | (Some err, st) => ((false, Some err), st)
        | (None, st) => configurePostgresOverrideConfFile pgData primaryConnInfo slotName st
        end
  end.

End Configuration.

End configuration.

Module configfile.

Import configuration.

(** A line of a configuration file: the assignment of a value to a key,
    or any other text (a comment, a blank line). *)
Inductive line : Type :=
| Assign (key value : string)
| Text (raw : string).

#[global] Instance line_eq_dec : EqDecision line.
Proof. solve_decision. Defined.

(** The line as it is written: [key = 'value'], as the tests of the
    package expect it. *)
Definition render (l : line) : string :=
  match l with
  | Assign key value => key +:+ " = '" +:+ value +:+ "'"
  | Text raw => raw
  end.

(** Whether a line assigns [option]. *)
Definition assigns (option : string) (l : line) : bool :=
  match l with
  | Assign key _ => String.eqb key option
  | Text _ => false
  end.

(** Modelled from the spec: [configfile.RemoveOptionFromConfigurationContents],
    which is missing from the embedded files (its tests are there): the
    lines assigning the option are deleted, the others kept. *)
Definition RemoveOptionFromConfigurationContents (content : list line) (option : string)
    : list line :=
  filter (fun l => assigns option l = false) content.

(** Modelled from the spec: the walk of [configfile.UpdateConfigurationContents],
    which is missing from the embedded files, over the lines of the
    file.  It "rewrites a known key set inside that file, leaving
    unrelated lines untouched, and removing duplicate prior assignments
    of the same keys": the first assignment of a key of the options
    stays where it is, with the new value, and later ones are dropped.
    [foundKeys] holds the keys met so far. *)
Fixpoint rewriteLines (options : gmap string string) (foundKeys : gset string)
    (lines : list line) : list line * gset string :=
  match lines with
  | [] => ([], foundKeys)
  | Text raw :: rest =>
      let '(resultContent, foundKeys) := rewriteLines options foundKeys rest in
      (Text raw :: resultContent, foundKeys)
  | Assign key value :: rest =>
      match options !! key with
      | None =>
          let '(resultContent, foundKeys) := rewriteLines options foundKeys rest in
          (Assign key value :: resultContent, foundKeys)
      | Some newValue =>
          if decide (key ∈ foundKeys) then rewriteLines options foundKeys rest
          else
            let '(resultContent, foundKeys) :=
              rewriteLines options ({[key]} ∪ foundKeys) rest in
            (Assign key newValue :: resultContent, foundKeys)
      end
  end.

(** The options whose key was not met, as lines. *)
Definition missingLines (options : gmap string string) (foundKeys : gset string)
    : list line :=
  map (fun kv => Assign kv.1 kv.2)
      (filter (fun kv => kv.1 ∉ foundKeys) (map_to_list options)).

(** Modelled from the spec: [configfile.UpdateConfigurationContents],
    which is missing from the embedded files: the walk above, then the
    options that no line assigned are appended (the test "must append
    missing keys"). *)
Definition UpdateConfigurationContents (content : list line)
    (options : gmap string string) : list line :=
  let '(resultContent, foundKeys) := rewriteLines options ∅ content in
  resultContent ++ missingLines options foundKeys.

(** The disk: the files with their lines, the major version of the
    engine that initialised each data directory, and the paths on which
    writing fails. *)
Record Disk : Type := {
  files : gmap string (list line);
  versions : gmap string Z;
  faults : gset string
}.

Definition withFile (fileName : string) (content : list line) (d : Disk) : Disk :=
  {| files := <[fileName := content]> (files d);
     versions := versions d; faults := faults d |}.

(** Modelled from the spec: [fileutils.WriteStringToFile], which is
    missing from the embedded files, on the lines of the text: "if the
    computed file content is byte-identical to what is already on disk,
    [changed=false]"; otherwise the file is written and [changed] is
    true.  A write on a faulty path fails. *)
Definition writeLines (fileName : string) (content : list line) (d : Disk)
    : (bool * option error) * Disk :=
  if decide (fileName ∈ faults d)
  then ((false, Some (NewError ("cannot write " +:+ fileName))), d)
  else
    match files d !! fileName with
    | Some previous =>
        if decide (previous = content) then ((false, None), d)
        else ((true, None), withFile fileName content d)
    | None => ((true, None), withFile fileName content d)
    end.

(** The content the updater computes for a file: the managed options the
    caller does not set are taken out, then the options are written in. *)
Definition removeUnsetOptions (current : list line) (options : gmap string string)
    (managedOptions : list string) : list line :=
  foldl (fun content option =>
           match options !! option with
           | Some _ => content
           | None => RemoveOptionFromConfigurationContents content option
           end)
        current managedOptions.

Definition updatedContent (current : list line) (options : gmap string string)
    (managedOptions : list string) : list line :=
  UpdateConfigurationContents (removeUnsetOptions current options managedOptions) options.

(** Modelled from the spec: [configfile.UpdatePostgresConfigurationFile],
    which is missing from the embedded files.  A file that does not
    exist reads as empty (the test "must work with missing files"); the
    keys given after the options are those the caller sets "optionally":
    one of them that is not among the options is removed from the file. *)
Definition updateFile (fileName : string) (options : gmap string string)
    (managedOptions : list string) (d : Disk) : (bool * option error) * Disk :=
  let currentContent := default [] (files d !! fileName) in
  writeLines fileName (updatedContent currentContent options managedOptions) d.

(** Modelled from the spec: the data directory as [configuration.go]
    reaches it, its functions being missing from the embedded files.
    The major version is the one recorded for the directory; a text
    written whole is kept as one block; creating a file leaves it empty. *)
Definition disk : FileSystem Disk := {|
  GetMajorVersion := fun pgData d =>
    (match versions d !! pgData with
     | Some major => inl major
     | None => inr (NewError ("cannot read the version of " +:+ pgData))
     end, d);
  UpdatePostgresConfigurationFile := updateFile;
  WriteStringToFile := fun fileName contents d => writeLines fileName [Text contents] d;
  Create := fun fileName d =>
    if decide (fileName ∈ faults d)
    then (Some (NewError ("cannot create " +:+ fileName)), d)
    else (None, withFile fileName [] d)
|}.

(** The values of the constants in the examples. *)
Definition exampleConstants : Constants := {|
  LogPath := "/controller/log";
  LogFileName := "postgres";
  PostgresqlCustomConfigurationFile := "custom.conf";
  PostgresqlHBARulesFile := "pg_hba.conf";
  PostgresqlOverrideConfigurationFile := "override.conf"
|}.

(** A data directory initialised by version [major], with no file yet. *)
Definition freshDisk (pgData : string) (major : Z) : Disk :=
  {| files := ∅; versions := {[ pgData := major ]}; faults := ∅ |}.

(** A cluster whose image tag gives no version, and one whose does. *)
Definition unknownVersion : apiv1.ClusterMethods := {|
  apiv1.GetPostgresqlVersion := fun _ =>
    inr (NewError "version not starting with a number: latest");
  apiv1.GetEnableLDAPAuth := fun _ => false
|}.

Definition version14 : apiv1.ClusterMethods := {|
  apiv1.GetPostgresqlVersion := fun _ => inl 140005%Z;
  apiv1.GetEnableLDAPAuth := fun _ => false
|}.

(** Rules made of the lines of the cluster followed by a default line. *)
Definition exampleRules : HBARules := {|
  CreateHBARules := fun pgHBA defaultAuthenticationMethod ldapConfigString =>
    inl (foldr (fun rule rest => rule +:+ newline +:+ rest)
               ("host all all all " +:+ defaultAuthenticationMethod +:+ newline) pgHBA)
|}.

(** Whether every assignment of a key of the options in [lines] has the
    value of the options. *)
Definition valuesSet (options : gmap string string) (lines : list line) : Prop :=
  ∀ key value, Assign key value ∈ lines →
    ∀ newValue, options !! key = Some newValue → value = newValue.

(** The keys of the options assigned in [lines], in order. *)
Definition optionKeys (options : gmap string string) (lines : list line) : list string :=
  omap (fun l => match l with
                 | Assign key _ =>
                     match options !! key with Some _ => Some key | None => None end
                 | Text _ => None
                 end) lines.

End configfile.

(** ** Postmaster lifecycle *)

Module lifecycle.

(** [postgres.InstanceCommand]: the two commands the switch of
    [handleInstanceCommandRequests] names, and any other value of the
    type. *)
Inductive InstanceCommand : Type :=
| RestartSmartFast
| ShutDownFastImmediate
| OtherCommand (req : string).

(** The part of [postgres.Instance] the lifecycle reads: two [int32]
    numbers of seconds. *)
Record Instance : Type := {
  MaxStopDelay : Z;
  MaxSwitchoverDelay : Z
}.

(** The shutdown procedures: the values [tryShuttingDownSmartFast] and
    [tryShuttingDownFastImmediate] return for a timeout.  Both functions
    are declared outside the files embedded here; a procedure is kept as
    the call that made it. *)
Inductive shutdownInstance : Type :=
| tryShuttingDownSmartFast (timeout : Z)
| tryShuttingDownFastImmediate (timeout : Z).

(** What the lifecycle does to the postmaster and to its own context. *)
Inductive Action : Type :=
| RunPostgresAndWait
| FullShutDownSequence (shutdown : shutdownInstance)
| Shutdown (shutdown : shutdownInstance)
| Cancel.

(** The case of the [select] that fires in a cycle. *)
Inductive Trigger : Type :=
| PostmasterExited (err : option error)
| ContextDone
| Signal (sig : string)
| Command (req : InstanceCommand).

(** Where the supervisor stands: about to start a postmaster, waiting in
    the [select] with one running, or returned from [Start]. *)
Inductive State : Type :=
| Starting
| Running
| Terminated (err : option error).

Section Lifecycle.

(** The error a shutdown procedure returns when it is called on the
    instance. *)
Context (call : shutdownInstance -> option error).

(** [PostgresLifecycle.handleInstanceCommandRequests]. *)
Definition handleInstanceCommandRequests (instance : Instance) (req : InstanceCommand)
    : bool * option error * list Action :=
  match req with
  | RestartSmartFast =>
      let shutdown := tryShuttingDownSmartFast (MaxSwitchoverDelay instance) in
      (true, call shutdown, [Shutdown shutdown])
  | ShutDownFastImmediate =>
      (false, None,
       [FullShutDownSequence (tryShuttingDownFastImmediate (MaxStopDelay instance))])
  | OtherCommand req => (false, Some (NewError ("unrecognized request: " +:+ req)), [])
  end.

(** One [select] of [Start], from [Running]: the state that follows and
    what was done.  [MaxStopDelay/2] is the division of Go, which
    truncates. *)
Definition cycle (instance : Instance) (trigger : Trigger) : State * list Action :=
  match trigger with
  | PostmasterExited err => (Terminated err, [])
  | ContextDone =>
      (Terminated None,
       [FullShutDownSequence (tryShuttingDownSmartFast (MaxStopDelay instance))])
  | Signal sig =>
      (Terminated None,
       [FullShutDownSequence (tryShuttingDownSmartFast (MaxStopDelay instance ÷ 2))])
  | Command req =>
      let '(restartNeeded, _, actions) := handleInstanceCommandRequests instance req in
      if negb restartNeeded then (Terminated None, actions)
      else (Starting, actions)
  end.

(** [PostgresLifecycle.Start], given the cases that fire, one per cycle.
    Each cycle starts a postmaster; the deferred [cancel] runs when the
    function returns; when no case is left the supervisor waits in the
    [select]. *)
Fixpoint Start (instance : Instance) (triggers : list Trigger) : State * list Action :=
  match triggers with
  | [] => (Running, [RunPostgresAndWait])
  | trigger :: rest =>
      match cycle instance trigger with
      | (Terminated err, actions) =>
          (Terminated err, RunPostgresAndWait :: actions ++ [Cancel])
      | (_, actions) =>
          let '(state, later) := Start instance rest in
          (state, RunPostgresAndWait :: actions ++ later)
      end
  end.

End Lifecycle.

(** The cycles of [n] restart commands. *)
Definition restartCycles (instance : Instance) (n : nat) : list Action :=
  concat (replicate n [RunPostgresAndWait;
                       Shutdown (tryShuttingDownSmartFast (MaxSwitchoverDelay instance))]).

End lifecycle.

(** * Proofs *)

Module reconciler_facts.

Import apiv1 infrastructure reconciler.

Section Facts.

Context {S : Type} (manager : Manager S) `{naming : SlotNaming}.

Lemma created_app tr1 tr2 : created (tr1 ++ tr2) = created tr1 ++ created tr2.
Proof. apply omap_app. Qed.

Lemma deleted_app tr1 tr2 : deleted (tr1 ++ tr2) = deleted tr1 ++ deleted tr2.
Proof. apply omap_app. Qed.

Lemma created_CallCreate cs : created (map CallCreate cs) = cs.
Proof. induction cs as [|c cs IH]; simpl; [done | by rewrite IH]. Qed.

Lemma deleted_CallCreate cs : deleted (map CallCreate cs) = [].
Proof. induction cs as [|c cs IH]; simpl; done. Qed.

Lemma deleted_CallDelete ds : deleted (map CallDelete ds) = ds.
Proof. induction ds as [|d ds IH]; simpl; [done | by rewrite IH]. Qed.

Lemma created_CallDelete ds : created (map CallDelete ds) = [].
Proof. induction ds as [|d ds IH]; simpl; done. Qed.

Lemma expectedHas_insert m k x :
  expectedHas (<[k := true]> m) x = true ↔ x = k ∨ expectedHas m x = true.
Proof.
  unfold expectedHas. destruct (decide (k = x)) as [->|Hne].
  - rewrite lookup_insert_eq. simpl. naive_solver.
  - rewrite lookup_insert_ne by done. naive_solver.
Qed.

Lemma expectedHas_foldl (f : string -> string) ns m x :
  expectedHas (foldl (fun m n => <[f n := true]> m) m ns) x = true
  ↔ x ∈ map f ns ∨ expectedHas m x = true.
Proof.
  revert m. induction ns as [|n ns IH]; intros m; simpl.
  - rewrite elem_of_nil. naive_solver.
  - rewrite IH, expectedHas_insert, elem_of_cons. naive_solver.
Qed.

Lemma expectedHas_empty x : expectedHas ∅ x = false.
Proof. unfold expectedHas. by rewrite lookup_empty. Qed.

(** The create loop only ever appends [Create] calls. *)
Lemma createMissingSlots_trace cluster cur names expected st tr expected' err st' tr' :
  createMissingSlots manager cluster cur names expected st tr = (expected', err, st', tr') →
  ∃ cs, tr' = tr ++ map CallCreate cs.
Proof.
  revert expected st tr. induction names as [|n names IH]; intros expected st tr; simpl.
  - intros [= <- <- <- <-]. exists []. by rewrite app_nil_r.
  - destruct (String.eqb n _); [apply IH|].
    destruct (Has cur _); [apply IH|].
    destruct (Create manager _ st) as [[e|] st1].
    + intros [= <- <- <- <-]. by eexists [_].
    + intros H. apply IH in H as [cs ->]. eexists (_ :: cs).
      by rewrite <- app_assoc.
Qed.

(** A create loop that ends without error has walked all the names. *)
Lemma createMissingSlots_ok cluster cur names expected st tr expected' st' tr' :
  createMissingSlots manager cluster cur names expected st tr = (expected', None, st', tr') →
  expected' = foldl (fun m n => <[GetSlotNameFromInstanceName cluster n := true]> m)
                expected (nonPrimary cluster names)
  ∧ tr' = tr ++ map (fun name => CallCreate {| SlotName := name; Active := false |})
                  (filter (fun name => Has cur name = false)
                     (map (GetSlotNameFromInstanceName cluster) (nonPrimary cluster names))).
Proof.
  revert expected st tr. induction names as [|n names IH]; intros expected st tr; simpl.
  - intros [= <- <- <-]. by rewrite app_nil_r.
  - unfold nonPrimary. destruct (String.eqb_spec n (CurrentPrimary (Status cluster))) as [Heq|Hne].
    + rewrite filter_cons_False by naive_solver. apply IH.
    + rewrite filter_cons_True by done. simpl.
      destruct (Has cur _) eqn:HHas.
      * rewrite filter_cons_False by congruence. apply IH.
      * rewrite filter_cons_True by done. simpl.
        destruct (Create manager _ st) as [[e|] st1]; [done|].
        intros H. apply IH in H as [-> ->]. split; [done|].
        by rewrite <- app_assoc.
Qed.

(** The delete loop appends [Delete] calls for a prefix of the inactive
    unexpected slots, and for all of them when it ends without error. *)
Lemma deleteUnexpectedSlots_trace expected items st tr err st' tr' :
  deleteUnexpectedSlots manager expected items st tr = (err, st', tr') →
  ∃ ds, tr' = tr ++ map CallDelete ds
        ∧ ds `prefix_of` toDelete expected items
        ∧ (err = None → ds = toDelete expected items).
Proof.
  revert st tr. induction items as [|s items IH]; intros st tr; simpl.
  - intros [= <- <- <-]. exists []. by rewrite app_nil_r.
  - unfold toDelete. destruct (expectedHas expected (SlotName s)) eqn:Hexp; simpl.
    { rewrite filter_cons_False by (intros [? ?]; congruence). apply IH. }
    destruct (Active s) eqn:Hact.
    { rewrite filter_cons_False by (intros [? ?]; congruence). apply IH. }
    rewrite filter_cons_True by done.
    destruct (Delete manager s st) as [[e|] st1].
    + intros [= <- <- <-]. exists [s]. split; [done|]. split; [|done].
      by apply prefix_cons, prefix_nil.
    + intros H. apply IH in H as (ds & -> & Hpre & Hall).
      exists (s :: ds). split; [by rewrite <- app_assoc|]. split.
      * by apply prefix_cons.
      * intros He. by rewrite (Hall He).
Qed.

End Facts.

End reconciler_facts.

Module reconciler_claims.

Import apiv1 infrastructure reconciler reconciler_facts.

(** What a pass of [reconcilePrimaryReplicationSlots] does, in terms of
    the slots the manager listed: any pass, and a pass without error. *)
Lemma reconcilePrimaryReplicationSlots_inv {S : Type} (manager : Manager S)
    `{naming : SlotNaming} cluster slots ha st err st' tr :
  Enabled ha = true →
  reconcilePrimaryReplicationSlots manager cluster slots ha st [] = (err, st', tr) →
  (∀ e st1, List manager slots st = (inr e, st1) → tr = [CallList] ∧ err = Some e)
  ∧ (∀ currentSlots st1, List manager slots st = (inl currentSlots, st1) →
      ∃ expectedSlots cs ds,
        tr = CallList :: map CallCreate cs ++ map CallDelete ds
        ∧ ds `prefix_of` toDelete expectedSlots (Items currentSlots)
        ∧ (ds ≠ [] ∨ err = None →
             (∀ x, expectedHas expectedSlots x = true ↔ x ∈ expectedSlotNames cluster)
             ∧ cs = map (fun name => {| SlotName := name; Active := false |})
                      (filter (fun name => Has currentSlots name = false)
                         (expectedSlotNames cluster)))
        ∧ (err = None → ds = toDelete expectedSlots (Items currentSlots))).
Proof.
  intros Hen. unfold reconcilePrimaryReplicationSlots. rewrite Hen. simpl.
  destruct (List manager slots st) as [[cur|e] st1].
  2:{ intros [= <- <- <-]. split; [intros ? ? [= <- <-]; done | intros ? ? [=]]. }
  destruct (createMissingSlots _ _ _ _ _ _ _) as [[[expected [e|]] st2] tr2] eqn:Hc.
  - intros [= <- <- <-]. split; [intros ? ? [=]|]. intros ? ? [= <- <-].
    apply createMissingSlots_trace in Hc as [cs ->].
    exists expected, cs, []. simpl. rewrite app_nil_r.
    split; [done|]. split; [apply prefix_nil|]. split; [intros [?|?]; done | done].
  - intros Hd. split; [intros ? ? [=]|]. intros ? ? [= <- <-].
    apply createMissingSlots_ok in Hc as [-> ->].
    apply deleteUnexpectedSlots_trace in Hd as (ds & -> & Hpre & Hall).
    eexists _, _, ds. split.
    { simpl. rewrite <- map_map. reflexivity. }
    split; [done|]. split; [|done].
    intros _. split.
    + intros x. rewrite expectedHas_foldl, expectedHas_empty. unfold expectedSlotNames.
      naive_solver.
    + unfold expectedSlotNames. done.
Qed.

Lemma deleted_of_pass cs ds :
  deleted (CallList :: map CallCreate cs ++ map CallDelete ds) = ds.
Proof. simpl. by rewrite deleted_app, deleted_CallCreate, deleted_CallDelete. Qed.

Lemma created_of_pass cs ds :
  created (CallList :: map CallCreate cs ++ map CallDelete ds) = cs.
Proof.
  simpl. by rewrite created_app, created_CallCreate, created_CallDelete, app_nil_r.
Qed.

Lemma elem_of_toDelete expectedSlots items s :
  s ∈ toDelete expectedSlots items
  ↔ s ∈ items ∧ expectedHas expectedSlots (SlotName s) = false ∧ Active s = false.
Proof. unfold toDelete. rewrite list_elem_of_filter. naive_solver. Qed.

(** C1.  In a pass of the reconciler on the primary with the slot feature
    enabled, every slot a delete is issued for is inactive, was listed by
    the engine and is not expected, whatever the engine answers; in a
    pass that ends without error a listed slot that is not expected is
    deleted if and only if it is inactive; and when the engine lists
    [a] (active), [b] and [c] (inactive) and no slot is expected, the
    deletes issued are exactly those of [b] and [c]. *)
Theorem reconcile_deletes_exactly_inactive_unexpected {S : Type} (manager : Manager S)
    `{naming : SlotNaming} cluster slots ha st err st' tr :
  Enabled ha = true →
  reconcilePrimaryReplicationSlots manager cluster slots ha st [] = (err, st', tr) →
  (∀ s, s ∈ deleted tr → Active s = false)
  ∧ (∀ currentSlots st1, List manager slots st = (inl currentSlots, st1) →
       (∀ s, s ∈ deleted tr →
          s ∈ Items currentSlots ∧ SlotName s ∉ expectedSlotNames cluster)
       ∧ (err = None →
            ∀ s, s ∈ Items currentSlots → SlotName s ∉ expectedSlotNames cluster →
              (s ∈ deleted tr ↔ Active s = false))
       ∧ (err = None →
            ∀ a b c, Items currentSlots = [a; b; c] → expectedSlotNames cluster = [] →
              Active a = true → Active b = false → Active c = false →
              deleted tr = [b; c])).
Proof.
  intros Hen Hrun.
  destruct (reconcilePrimaryReplicationSlots_inv manager _ _ _ _ _ _ _ Hen Hrun)
    as [Herr Hok].
  assert (Hexp : ∀ (m : gmap string bool) x,
            (∀ y, expectedHas m y = true ↔ y ∈ expectedSlotNames cluster) →
            expectedHas m x = false ↔ x ∉ expectedSlotNames cluster).
  { intros m x Hm. rewrite <- Hm. destruct (expectedHas m x); naive_solver. }
  destruct (List manager slots st) as [[cur|e] st1] eqn:HL.
  2:{ destruct (Herr _ _ eq_refl) as [-> _]. split.
      - intros s Hs. simpl in Hs. by apply elem_of_nil in Hs.
      - intros ? ? [=]. }
  destruct (Hok _ _ eq_refl) as (expected & cs & ds & -> & Hpre & Hfull & Hall).
  rewrite deleted_of_pass.
  assert (Hds : ∀ s, s ∈ ds → s ∈ toDelete expected (Items cur)).
  { intros s Hs. destruct Hpre as [k ->]. apply elem_of_app. by left. }
  split.
  { intros s Hs. apply Hds, elem_of_toDelete in Hs. tauto. }
  intros ? ? [= <- <-]. split; [|split].
  - intros s Hs. destruct Hfull as [Hm _].
    { left. intros ->. by apply elem_of_nil in Hs. }
    apply Hds, elem_of_toDelete in Hs as (? & ? & ?).
    split; [done|]. by apply (Hexp expected).
  - intros -> s Hin Hnot. destruct Hfull as [Hm _]; [by right|].
    rewrite (Hall eq_refl), elem_of_toDelete. rewrite (Hexp expected _ Hm). tauto.
  - intros -> a b c Hitems Hnone Ha Hb Hc. destruct Hfull as [Hm _]; [by right|].
    rewrite (Hall eq_refl), Hitems. unfold toDelete.
    assert (Hf : ∀ x, expectedHas expected x = false).
    { intros x. apply (Hexp expected _ Hm). rewrite Hnone. apply not_elem_of_nil. }
    rewrite filter_cons_False by (rewrite Ha; intros [? ?]; done).
    rewrite filter_cons_True by (by rewrite Hf).
    rewrite filter_cons_True by (by rewrite Hf).
    done.
Qed.

(** C1 at the three slots of the example, on the in-memory engine. *)
Lemma reconcile_deletes_exactly_inactive_unexpected_witness :
  let a := {| SlotName := "a"; Active := true |} in
  let b := {| SlotName := "b"; Active := false |} in
  let c := {| SlotName := "c"; Active := false |} in
  let cluster := haCluster "p-1" "p-1" ["p-1"] in
  let slots := {| HighAvailability := Some {| Enabled := true |} |} in
  let tr := [CallList; CallDelete b; CallDelete c] in
  Enabled {| Enabled := true |} = true
  ∧ reconcilePrimaryReplicationSlots memoryManager (naming := prefixNaming "_cnpg_")
      cluster slots {| Enabled := true |} [a; b; c] [] = (None, [a], tr)
  ∧ (∀ s, s ∈ deleted tr → Active s = false)
  ∧ deleted tr = [b; c].
Proof.
  intros a b c cluster slots tr.
  assert (Hrun : reconcilePrimaryReplicationSlots memoryManager
                   (naming := prefixNaming "_cnpg_")
                   cluster slots {| Enabled := true |} [a; b; c] [] = (None, [a], tr))
    by (vm_compute; reflexivity).
  split; [reflexivity|]. split; [exact Hrun|].
  destruct (reconcile_deletes_exactly_inactive_unexpected memoryManager
              (naming := prefixNaming "_cnpg_") cluster slots {| Enabled := true |}
              [a; b; c] None [a] tr eq_refl Hrun) as [Hsafe Hrest].
  split; [exact Hsafe|].
  destruct (Hrest {| Items := [a; b; c] |} [a; b; c] eq_refl) as (_ & _ & Habc).
  apply (Habc eq_refl a b c); reflexivity.
Defined.

(** C8.  [ReconcileReplicationSlots] makes no call on the engine on an
    instance that is neither the current nor the target primary; on the
    primary, with the feature enabled, a pass that ends without error has
    asked to create exactly the expected slots that the engine did not
    list, the expected slots being one per listed instance other than the
    current primary, named by [GetSlotNameFromInstanceName]; with
    instances [p-1] (primary), [p-2], [p-3] and no slot listed, the
    creates are those for [p-2] and [p-3], in this order, and no delete
    is issued. *)
Theorem reconcile_on_primary_creates_one_slot_per_replica {S : Type} (manager : Manager S)
    `{naming : SlotNaming} instanceName cluster st err st' tr :
  ReconcileReplicationSlots manager instanceName cluster st = (err, st', tr) →
  (CurrentPrimary (Status cluster) ≠ instanceName →
   TargetPrimary (Status cluster) ≠ instanceName →
   tr = [] ∧ err = None ∧ st' = st)
  ∧ (∀ slots ha currentSlots st1,
       ReplicationSlots (Spec cluster) = Some slots →
       HighAvailability slots = Some ha →
       Enabled ha = true →
       CurrentPrimary (Status cluster) = instanceName
         ∨ TargetPrimary (Status cluster) = instanceName →
       List manager slots st = (inl currentSlots, st1) →
       err = None →
       created tr = map (fun name => {| SlotName := name; Active := false |})
                      (filter (fun name => Has currentSlots name = false)
                         (map (GetSlotNameFromInstanceName cluster)
                            (filter (fun n => n ≠ CurrentPrimary (Status cluster))
                               (InstanceNames (Status cluster)))))
       ∧ (InstanceNames (Status cluster) = ["p-1"; "p-2"; "p-3"] →
          CurrentPrimary (Status cluster) = "p-1" →
          Items currentSlots = [] →
          created tr =
            [ {| SlotName := GetSlotNameFromInstanceName cluster "p-2"; Active := false |};
              {| SlotName := GetSlotNameFromInstanceName cluster "p-3"; Active := false |} ]
          ∧ deleted tr = [])).
Proof.
  unfold ReconcileReplicationSlots. intros Hrun. split.
  - intros Hc Ht.
    destruct (ReplicationSlots (Spec cluster)) as [slots|];
      [|by inversion Hrun].
    destruct (HighAvailability slots) as [ha|]; [|by inversion Hrun].
    apply String.eqb_neq in Hc, Ht. rewrite Hc, Ht in Hrun. simpl in Hrun.
    by inversion Hrun.
  - intros slots ha cur st1 Hs Hha Hen Hprim HL ->.
    rewrite Hs, Hha in Hrun.
    assert (Hor : String.eqb (CurrentPrimary (Status cluster)) instanceName
                  || String.eqb (TargetPrimary (Status cluster)) instanceName = true).
    { apply orb_true_iff. rewrite !String.eqb_eq. done. }
    rewrite Hor in Hrun.
    destruct (reconcilePrimaryReplicationSlots_inv manager _ _ _ _ _ _ _ Hen Hrun)
      as [_ Hok].
    destruct (Hok _ _ HL) as (expected & cs & ds & -> & Hpre & Hfull & Hall).
    destruct Hfull as [Hm ->]; [by right|].
    rewrite created_of_pass, deleted_of_pass. split; [done|].
    intros Hnames Hp Hitems. rewrite (Hall eq_refl), Hitems.
    unfold expectedSlotNames, nonPrimary, Has. rewrite Hnames, Hp, Hitems.
    simpl. done.
Qed.

(** C8 on the in-memory engine: a run on the primary [p-1] of a fleet of
    three, and a run on the replica [p-2], which calls nothing. *)
Lemma reconcile_on_primary_creates_one_slot_per_replica_witness :
  let cluster := haCluster "p-1" "p-1" ["p-1"; "p-2"; "p-3"] in
  let s2 := {| SlotName := "_cnpg_p-2"; Active := false |} in
  let s3 := {| SlotName := "_cnpg_p-3"; Active := false |} in
  ReconcileReplicationSlots memoryManager (naming := prefixNaming "_cnpg_")
    "p-1" cluster [] = (None, [s2; s3], [CallList; CallCreate s2; CallCreate s3])
  ∧ created [CallList; CallCreate s2; CallCreate s3] = [s2; s3]
  ∧ ReconcileReplicationSlots memoryManager (naming := prefixNaming "_cnpg_")
      "p-2" cluster [] = (None, [], []).
Proof.
  intros cluster s2 s3.
  assert (Hrun : ReconcileReplicationSlots memoryManager (naming := prefixNaming "_cnpg_")
                   "p-1" cluster [] = (None, [s2; s3], [CallList; CallCreate s2; CallCreate s3]))
    by (vm_compute; reflexivity).
  split; [exact Hrun|].
  destruct (reconcile_on_primary_creates_one_slot_per_replica memoryManager
              (naming := prefixNaming "_cnpg_") "p-1" cluster [] _ _ _ Hrun)
    as [_ Hprim].
  destruct (Hprim {| HighAvailability := Some {| Enabled := true |} |}
              {| Enabled := true |} {| Items := [] |} []
              eq_refl eq_refl eq_refl (or_introl eq_refl) eq_refl eq_refl)
    as [_ Hex].
  split; [exact (proj1 (Hex eq_refl eq_refl eq_refl))|].
  vm_compute; reflexivity.
Defined.

(** On an engine that refuses a delete the pass stops at the refusal: the
    later inactive slot [c] is not asked for in that pass. *)
Example reconcile_stops_at_refused_delete :
  let a := {| SlotName := "a"; Active := true |} in
  let b := {| SlotName := "b"; Active := false |} in
  let c := {| SlotName := "c"; Active := false |} in
  reconcilePrimaryReplicationSlots refusingManager (naming := prefixNaming "_cnpg_")
    (haCluster "p-1" "p-1" ["p-1"])
    {| HighAvailability := Some {| Enabled := true |} |} {| Enabled := true |}
    [a; b; c] []
  = (Some (Wrapf ("failure deleting replication slot " +:+ quote +:+ "b" +:+ quote)
             (NewError "replication slot is busy")),
     [a; b; c], [CallList; CallDelete b]).
Proof. vm_compute; reflexivity. Qed.

End reconciler_claims.

Module probes_facts.

Import postgres probes.

Lemma failures_app tr1 tr2 : failures (tr1 ++ tr2) = failures tr1 ++ failures tr2.
Proof. apply filter_app. Qed.

Lemma failures_ok c : failures [ {| call := c; failure := None |} ] = [].
Proof. reflexivity. Qed.

Lemma failures_nil_elem tr ev : failures tr = [] → ev ∈ tr → failure ev = None.
Proof.
  intros Hf Hin. destruct (failure ev) as [e|] eqn:He; [|done].
  assert (ev ∈ failures tr) as Hin'.
  { apply list_elem_of_filter. split; [congruence | done]. }
  rewrite Hf in Hin'. by apply elem_of_nil in Hin'.
Qed.

Lemma abortedAt_prepend P e evs0 evs :
  failures evs0 = [] → abortedAt P e evs → abortedAt P e (evs0 ++ evs).
Proof.
  intros H0 (evs1 & c & -> & HP & H1). exists (evs0 ++ evs1), c.
  rewrite app_assoc. split; [done|]. split; [done|].
  by rewrite failures_app, H0, H1.
Qed.

Lemma verdict_prepend {A} (errOf : A → option error) out evs0 evs :
  failures evs0 = [] → verdict errOf out evs → verdict errOf out (evs0 ++ evs).
Proof.
  intros H0. destruct out as [a|]; simpl.
  - destruct (errOf a).
    + by apply abortedAt_prepend.
    + intros H1. by rewrite failures_app, H0, H1.
  - intros [e He]. exists e. by apply abortedAt_prepend.
Qed.

Section Discipline.

Context {A B : Type} (errA : A → option error) (errB : B → option error).

Lemma disciplined_ret (a : A) : errA a = None → disciplined errA (ret a).
Proof.
  intros Ha. exists (Returned a), []. split.
  - intros tr. unfold ret. by rewrite app_nil_r.
  - simpl. by rewrite Ha.
Qed.

(** Sequencing: the continuation runs after a result without error, and
    hands an error on at once. *)
Lemma disciplined_bind (m : Probe A) (f : A → Probe B) :
  disciplined errA m →
  (∀ a, match errA a with
        | None => disciplined errB (f a)
        | Some e => ∃ b, f a = ret b ∧ errB b = Some e
        end) →
  disciplined errB (bind m f).
Proof.
  intros (out & evs & Hm & Hv) Hf. destruct out as [a|].
  - specialize (Hf a). simpl in Hv. destruct (errA a) as [e|].
    + destruct Hf as (b & Hfa & Hb). exists (Returned b), evs. split.
      * intros tr. unfold bind. rewrite Hm, Hfa. reflexivity.
      * simpl. by rewrite Hb.
    + destruct Hf as (out2 & evs2 & Hfa & Hv2). exists out2, (evs ++ evs2). split.
      * intros tr. unfold bind. rewrite Hm, Hfa. by rewrite app_assoc.
      * by apply verdict_prepend.
  - exists Panicked, evs. split; [|done].
    intros tr. unfold bind. by rewrite Hm.
Qed.

End Discipline.

Lemma disciplined_request {A} c (answer : A + error) :
  c ≠ QueryReplication → disciplined errOfSum (request c answer).
Proof.
  intros Hc. eexists (Returned answer), [_]. split; [done|].
  destruct answer as [a|e]; simpl; [done|].
  exists [], c. done.
Qed.

(** A request that is answered without error, whatever it is, and then
    disciplined code. *)
Lemma disciplined_after_answer {A B} (errB : B → option error) c (a : A)
    (f : A + error → Probe B) :
  disciplined errB (f (inl a)) → disciplined errB (bind (request c (inl a)) f).
Proof.
  intros (out & evs & Hf & Hv). eexists out, (_ :: evs). split.
  - intros tr. unfold bind, request. rewrite Hf. by rewrite <- app_assoc.
  - by apply (verdict_prepend errB out [_] evs).
Qed.

Lemma disciplined_requestPair {A} c (answer : A * option error) :
  c ≠ QueryReplication → disciplined snd (requestPair c answer).
Proof.
  intros Hc. eexists (Returned answer), [_]. split; [done|].
  destruct answer as [a [e|]]; simpl; [|done].
  exists [], c. done.
Qed.

Lemma disciplined_requestErr c (answer : option error) :
  c ≠ QueryReplication → disciplined id (requestErr c answer).
Proof.
  intros Hc. eexists (Returned answer), [_]. split; [done|].
  destruct answer as [e|]; simpl; [|done].
  exists [], c. done.
Qed.

Lemma disciplined_run {A} (errOf : A → option error) (m : Probe A) :
  disciplined errOf m →
  ∀ tr, m tr = (fst (run m), tr ++ snd (run m)) ∧ verdict errOf (fst (run m)) (snd (run m)).
Proof.
  intros (out & evs & Hm & Hv) tr. unfold run. rewrite (Hm []), Hm. simpl. done.
Qed.

Lemma bind_returned {A B} (m : Probe A) (f : A → Probe B) tr b tr' :
  bind m f tr = (Returned b, tr') →
  ∃ a tr1, m tr = (Returned a, tr1) ∧ f a tr1 = (Returned b, tr').
Proof.
  unfold bind. destruct (m tr) as [[a|] tr1]; [|done]. intros H. by exists a, tr1.
Qed.

(** Unfolds one sequencing step of a probe that has returned. *)
Ltac inv_bind H :=
  let a := fresh "a" in
  let tr := fresh "tr" in
  let Hm := fresh "Hm" in
  apply bind_returned in H as (a & tr & Hm & H).

Section ProbeFacts.

Context `{order : LSNOrder}.

Lemma disciplined_scanDecreasedSettings scans acc :
  disciplined errOfSum (scanDecreasedSettings scans acc).
Proof.
  revert acc. induction scans as [|scan scans IH]; intros acc; simpl.
  - by apply disciplined_ret.
  - eapply disciplined_bind; [by apply disciplined_request|].
    intros [[name newValue]|e]; simpl; [apply IH | by eexists].
Qed.

Lemma disciplined_GetDecreasedSensibleSettings env :
  disciplined errOfSum (GetDecreasedSensibleSettings env).
Proof.
  unfold GetDecreasedSensibleSettings.
  eapply disciplined_bind; [by apply disciplined_request|].
  intros [rows|e]; simpl; [|by eexists].
  eapply disciplined_bind; [apply disciplined_scanDecreasedSettings|].
  intros [values|e]; simpl; [|by eexists].
  eapply disciplined_bind; [by apply disciplined_requestErr|].
  intros [e|]; simpl; [by eexists | by apply disciplined_ret].
Qed.

Lemma disciplined_updateResultForDecrease instance env result :
  disciplined snd (updateResultForDecrease instance env result).
Proof.
  unfold updateResultForDecrease.
  eapply disciplined_bind; [apply disciplined_GetDecreasedSensibleSettings|].
  intros [values|e]; simpl; [|by eexists].
  destruct (Nat.eqb _ _); [by apply disciplined_ret|].
  destruct (negb _); [|by apply disciplined_ret].
  eapply disciplined_bind; [by apply disciplined_request|].
  intros [params|e]; simpl; [by apply disciplined_ret | by eexists].
Qed.

Lemma disciplined_fillStatusFromPrimary env result :
  disciplined snd (fillStatusFromPrimary env result).
Proof.
  unfold fillStatusFromPrimary.
  eapply disciplined_bind; [by apply disciplined_requestErr|].
  intros [e|]; simpl; [by eexists|].
  eapply disciplined_bind; [by apply disciplined_request|].
  intros [row|e]; simpl; [by apply disciplined_ret | by eexists].
Qed.

Lemma disciplined_IsWALReceiverActive env :
  disciplined snd (IsWALReceiverActive env).
Proof.
  unfold IsWALReceiverActive.
  eapply disciplined_bind; [by apply disciplined_requestErr|].
  intros [e|]; simpl; [by eexists|].
  eapply disciplined_bind; [by apply disciplined_request|].
  intros [row|e]; simpl; [by apply disciplined_ret | by eexists].
Qed.

Lemma disciplined_fillStatusFromReplica env result :
  disciplined snd (fillStatusFromReplica env result).
Proof.
  unfold fillStatusFromReplica.
  eapply disciplined_bind; [by apply disciplined_requestErr|].
  intros [e|]; simpl; [by eexists|].
  eapply disciplined_bind; [by apply disciplined_request|].
  intros [row|e]; simpl; [|by eexists].
  eapply disciplined_bind; [apply disciplined_IsWALReceiverActive|].
  intros [active [e|]]; simpl; [by eexists | by apply disciplined_ret].
Qed.

Lemma disciplined_GetWALArchiveCounters env :
  disciplined snd (GetWALArchiveCounters env).
Proof.
  unfold GetWALArchiveCounters.
  eapply disciplined_bind; [by apply disciplined_request|].
  intros [files|e]; simpl; [by apply disciplined_ret | by eexists].
Qed.

Lemma disciplined_scanReplication scans result :
  disciplined snd (scanReplication scans result).
Proof.
  revert result. induction scans as [|scan scans IH]; intros result; simpl.
  - by apply disciplined_ret.
  - eapply disciplined_bind; [by apply disciplined_request|].
    intros [pgr|e]; simpl; [apply IH | by eexists].
Qed.

Lemma disciplined_fillWalStatus env result :
  disciplined snd (fillWalStatus env result).
Proof.
  unfold fillWalStatus.
  eapply disciplined_bind; [by apply disciplined_requestErr|].
  intros [e|]; simpl; [by eexists|].
  destruct (replicationRows env) as [rows|e].
  2:{ exists Panicked. eexists [_]. split; [done|]. exists e, [], QueryReplication. done. }
  apply disciplined_after_answer.
  eapply disciplined_bind; [apply disciplined_scanReplication|].
  intros [result' [e|]]; simpl; [by eexists|].
  eapply disciplined_bind; [by apply disciplined_requestErr|].
  intros [e|]; simpl; [by eexists|].
  eapply disciplined_bind; [apply disciplined_GetWALArchiveCounters|].
  intros [[ready done'] [e|]]; simpl; [by eexists | by apply disciplined_ret].
Qed.

Lemma disciplined_fillStatus env result :
  disciplined snd (fillStatus env result).
Proof.
  unfold fillStatus. eapply disciplined_bind.
  - destruct (IsPrimary result);
      [apply disciplined_fillStatusFromPrimary | apply disciplined_fillStatusFromReplica].
  - intros [result' [e|]]; simpl; [by eexists | apply disciplined_fillWalStatus].
Qed.

Lemma disciplined_GetStatus instance env :
  disciplined snd (GetStatus instance env).
Proof.
  unfold GetStatus. destruct (PgRewindIsRunning instance); [by apply disciplined_ret|].
  eapply disciplined_bind; [by apply disciplined_requestErr|].
  intros [e|]; simpl; [by eexists|].
  eapply disciplined_bind; [by apply disciplined_request|].
  intros [row|e]; simpl; [|by eexists].
  eapply disciplined_bind.
  { destruct (rowPendingRestart row);
      [apply disciplined_updateResultForDecrease | by apply disciplined_ret]. }
  intros [result1 [e|]]; simpl; [by eexists|].
  eapply disciplined_bind; [apply disciplined_fillStatus|].
  intros [result2 [e|]]; simpl; [by eexists|].
  eapply disciplined_bind; [by apply disciplined_requestPair|].
  intros [hash [e|]]; simpl; [by eexists | by apply disciplined_ret].
Qed.

(** [areAllParamsUpdated] holds exactly when the control data has the new
    value of every decreased setting. *)
Lemma areAllParamsUpdated_spec (decreasedValues pgControldataParams : gmap string string) :
  areAllParamsUpdated decreasedValues pgControldataParams = true
  ↔ ∀ setting newValue, decreasedValues !! setting = Some newValue →
      default "" (pgControldataParams !! setting) = newValue.
Proof.
  unfold areAllParamsUpdated. rewrite Nat.eqb_eq.
  set (f := fun (setting newValue : string) (readyParams : nat) =>
              if String.eqb (default "" (pgControldataParams !! setting)) newValue
              then Datatypes.S readyParams else readyParams).
  cut ((map_fold f 0%nat decreasedValues ≤ size decreasedValues)%nat
       ∧ (map_fold f 0%nat decreasedValues = size decreasedValues
          ↔ ∀ setting newValue, decreasedValues !! setting = Some newValue →
              default "" (pgControldataParams !! setting) = newValue)).
  { tauto. }
  apply (map_fold_weak_ind (fun (n : nat) (m : gmap string string) =>
           (n ≤ size m)%nat
           ∧ (n = size m ↔ ∀ setting newValue, m !! setting = Some newValue →
                               default "" (pgControldataParams !! setting) = newValue))).
  - split; [by rewrite map_size_empty|]. rewrite map_size_empty. split; [|done].
    intros _ ? ?. by rewrite lookup_empty.
  - intros k v m n Hk [Hle [Hfwd Hbwd]]. rewrite map_size_insert_None by done. unfold f.
    destruct (String.eqb_spec (default "" (pgControldataParams !! k)) v) as [Heq|Hne].
    + split; [lia|]. split.
      * intros Hn. assert (n = size m) as Hn' by lia. specialize (Hfwd Hn').
        intros s nv. destruct (decide (k = s)) as [->|Hks].
        -- rewrite lookup_insert_eq. by intros [= <-].
        -- rewrite lookup_insert_ne by done. apply Hfwd.
      * intros Hall. f_equal. apply Hbwd. intros s nv Hs. apply Hall.
        rewrite lookup_insert_ne; [done|]. intros ->. congruence.
    + split; [lia|]. split; [lia|].
      intros Hall. exfalso. apply Hne. apply Hall. by rewrite lookup_insert_eq.
Qed.

Lemma scanReplication_fields scans result tr result' err tr' :
  scanReplication scans result tr = (Returned (result', err), tr') →
  IsPrimary result' = IsPrimary result
  ∧ PendingRestart result' = PendingRestart result
  ∧ PendingRestartForDecrease result' = PendingRestartForDecrease result
  ∧ ReceivedLsn result' = ReceivedLsn result
  ∧ ReplayLsn result' = ReplayLsn result.
Proof.
  revert result tr. induction scans as [|scan scans IH]; intros result tr; simpl.
  - intros [= <- <- <-]. done.
  - unfold bind, request. destruct scan as [pgr|e]; simpl.
    + intros H. apply IH in H. simpl in H. done.
    + intros [= <- <- <-]. done.
Qed.

Lemma fillWalStatus_fields env result tr result' err tr' :
  fillWalStatus env result tr = (Returned (result', err), tr') →
  IsPrimary result' = IsPrimary result
  ∧ PendingRestart result' = PendingRestart result
  ∧ PendingRestartForDecrease result' = PendingRestartForDecrease result
  ∧ ReceivedLsn result' = ReceivedLsn result
  ∧ ReplayLsn result' = ReplayLsn result.
Proof.
  unfold fillWalStatus. intros H.
  inv_bind H. unfold requestErr in Hm. injection Hm as <- <-.
  destruct (superUserDB env); [by injection H as <- <- <-|].
  inv_bind H. unfold request in Hm. injection Hm as <- <-.
  destruct (replicationRows env) as [rows|e]; [|done].
  inv_bind H. destruct a as [result1 err1].
  apply scanReplication_fields in Hm.
  assert (IsPrimary result1 = IsPrimary result
          ∧ PendingRestart result1 = PendingRestart result
          ∧ PendingRestartForDecrease result1 = PendingRestartForDecrease result
          ∧ ReceivedLsn result1 = ReceivedLsn result
          ∧ ReplayLsn result1 = ReplayLsn result) as Hfields.
  { destruct (ReplicationInfo result); exact Hm. }
  clear Hm. destruct err1; [by injection H as <- <- <-|].
  inv_bind H. unfold requestErr in Hm. injection Hm as <- <-.
  destruct (rowsErr rows); [by injection H as <- <- <-|].
  inv_bind H. destruct a as [[ready done'] err2].
  destruct err2; injection H as <- <- <-; exact Hfields.
Qed.

Lemma fillStatus_fields env result tr result' err tr' :
  fillStatus env result tr = (Returned (result', err), tr') →
  IsPrimary result' = IsPrimary result
  ∧ PendingRestart result' = PendingRestart result
  ∧ PendingRestartForDecrease result' = PendingRestartForDecrease result
  ∧ (IsPrimary result = false → err = None →
       ∃ row, replicaRow env = inl row
              ∧ ReplayLsn result' = rowReplayLsn row
              ∧ ReceivedLsn result' =
                  (if Less (rowReceivedLsn row) (rowReplayLsn row)
                   then rowReplayLsn row else rowReceivedLsn row)).
Proof.
  unfold fillStatus. intros H. inv_bind H. destruct a as [result1 err1].
  assert (IsPrimary result1 = IsPrimary result
          ∧ PendingRestart result1 = PendingRestart result
          ∧ PendingRestartForDecrease result1 = PendingRestartForDecrease result
          ∧ (IsPrimary result = false → err1 = None →
               ∃ row, replicaRow env = inl row
                      ∧ ReplayLsn result1 = rowReplayLsn row
                      ∧ ReceivedLsn result1 =
                          (if Less (rowReceivedLsn row) (rowReplayLsn row)
                           then rowReplayLsn row else rowReceivedLsn row))) as Hfirst.
  { destruct (IsPrimary result) eqn:Hprim.
    - unfold fillStatusFromPrimary, bind, requestErr, request, ret in Hm.
      destruct (superUserDB env); [by injection Hm as <- <- <-|].
      destruct (archiverRow env); by injection Hm as <- <- <-.
    - unfold fillStatusFromReplica, IsWALReceiverActive, bind, requestErr, request, ret in Hm.
      destruct (superUserDB env); [by injection Hm as <- <- <-|].
      destruct (replicaRow env) as [row|e]; [|by injection Hm as <- <- <-].
      simpl in Hm.
      destruct (walReceiverRow env); injection Hm as <- <- <-;
        (destruct (Less (rowReceivedLsn row) (rowReplayLsn row)) eqn:HL; simpl;
         rewrite ?Hprim; repeat split; try done; intros _ _; exists row; rewrite ?HL; done). }
  destruct Hfirst as (H1 & H2 & H3 & H4).
  destruct err1 as [e|]; [injection H as <- <- <-; repeat split; done|].
  apply fillWalStatus_fields in H as (F1 & F2 & F3 & F4 & F5).
  rewrite F1, F2, F3, F4, F5. repeat split; try done.
  intros Hp _. apply H4; done.
Qed.

Lemma updateResultForDecrease_fields instance env result tr result' err tr' :
  updateResultForDecrease instance env result tr = (Returned (result', err), tr') →
  IsPrimary result' = IsPrimary result
  ∧ ∀ decreasedValues pgControldataParams,
      fst (run (GetDecreasedSensibleSettings env)) = Returned (inl decreasedValues) →
      decreasedValues ≠ ∅ →
      IsPrimary result = false →
      pgControldata env = inl pgControldataParams →
      err = None
      ∧ PendingRestartForDecrease result' = true
      ∧ PendingRestart result' = areAllParamsUpdated decreasedValues pgControldataParams.
Proof.
  unfold updateResultForDecrease. intros H. inv_bind H.
  destruct (disciplined_run _ _ (disciplined_GetDecreasedSensibleSettings env) tr)
    as [Hrun _].
  rewrite Hrun in Hm. injection Hm as Hout _. rewrite Hout. clear Hrun.
  destruct a as [values|e].
  2:{ injection H as <- <- <-. split; [done|]. intros ? ? [=]. }
  destruct (Nat.eqb (size values) 0) eqn:Hsize.
  { injection H as <- <- <-. split; [done|].
    intros d p [= <-] Hne. apply Nat.eqb_eq, map_size_empty_iff in Hsize. done. }
  simpl in H. destruct (IsPrimary result) eqn:Hprim; simpl in H.
  { injection H as <- <- <-. split; [done|]. intros ? ? _ _ [=]. }
  unfold bind, request, ret in H.
  destruct (pgControldata env) as [params|e]; injection H as <- <- <-.
  - split; [done|]. intros d p [= <-] _ _ [= <-]. done.
  - split; [done|]. intros ? ? _ _ _ [=].
Qed.

End ProbeFacts.

End probes_facts.

Module probes_claims.

Import postgres probes probes_facts.

(** The course of a probe that is not cut short by [pg_rewind]: it stops
    before the first row is scanned, or goes through
    [updateResultForDecrease] and, if that went well, [fillStatus], after
    which the fields below are not written any more. *)
Lemma GetStatus_inv `{order : LSNOrder} instance env r err tr :
  PgRewindIsRunning instance = false →
  run (GetStatus instance env) = (Returned (Some r, err), tr) →
  (r = newStatus instance env ∧ err ≠ None
     ∧ (superUserDB env ≠ None ∨ ∃ e, statusRow env = inr e))
  ∨ (superUserDB env = None
     ∧ ∃ row result1 err1 tr0 tr1,
         statusRow env = inl row
         ∧ (if rowPendingRestart row
            then updateResultForDecrease instance env
                   (withStatusRow row (newStatus instance env))
            else ret (withStatusRow row (newStatus instance env), None)) tr0
           = (Returned (result1, err1), tr1)
         ∧ match err1 with
           | Some e => r = result1 ∧ err = Some e
           | None =>
               ∃ result2 err2 tr2,
                 fillStatus env result1 tr1 = (Returned (result2, err2), tr2)
                 ∧ IsPrimary r = IsPrimary result2
                 ∧ PendingRestart r = PendingRestart result2
                 ∧ PendingRestartForDecrease r = PendingRestartForDecrease result2
                 ∧ ReceivedLsn r = ReceivedLsn result2
                 ∧ ReplayLsn r = ReplayLsn result2
                 ∧ (err = None → err2 = None)
           end).
Proof.
  intros Hrw. unfold run, GetStatus. rewrite Hrw. intros H.
  inv_bind H. unfold requestErr in Hm. injection Hm as <- <-.
  destruct (superUserDB env) as [e|]; [injection H as <- <- <-; left; eauto|].
  inv_bind H. unfold request in Hm. injection Hm as <- <-.
  destruct (statusRow env) as [row|e]; [|injection H as <- <- <-; left; eauto].
  right. split; [done|]. simpl in H.
  inv_bind H. destruct a as [result1 err1].
  exists row, result1, err1. do 2 eexists. split; [done|]. split; [exact Hm|].
  destruct err1 as [e|]; [by injection H as <- <- <-|].
  inv_bind H. destruct a as [result2 err2].
  exists result2, err2, tr1. split; [exact Hm0|].
  destruct err2 as [e|]; [by injection H as <- <- <-|].
  inv_bind H. unfold requestPair in Hm1. injection Hm1 as <- <-.
  destruct (executableHash env) as [hash [e|]]; injection H as <- <- <-; done.
Qed.

(** C2.  On a replica for which the engine reports a pending restart and
    some hot-standby-sensitive settings are being decreased, the snapshot
    the probe returns has [PendingRestart] false as long as the control
    data lacks the new value of one of those settings, and true once the
    control data holds the new value of each of them; the restart is
    marked as due to a decrease in both cases. *)
Theorem pending_restart_waits_for_control_data `{order : LSNOrder}
    instance env row decreasedValues pgControldataParams r err tr :
  PgRewindIsRunning instance = false →
  superUserDB env = None →
  statusRow env = inl row →
  rowPendingRestart row = true →
  rowIsPrimary row = false →
  fst (run (GetDecreasedSensibleSettings env)) = Returned (inl decreasedValues) →
  decreasedValues ≠ ∅ →
  pgControldata env = inl pgControldataParams →
  run (GetStatus instance env) = (Returned (Some r, err), tr) →
  PendingRestartForDecrease r = true
  ∧ ((∃ setting newValue, decreasedValues !! setting = Some newValue
        ∧ default "" (pgControldataParams !! setting) ≠ newValue) →
     PendingRestart r = false)
  ∧ ((∀ setting newValue, decreasedValues !! setting = Some newValue →
        default "" (pgControldataParams !! setting) = newValue) →
     PendingRestart r = true).
Proof.
  intros Hrw Hdb Hrow Hpending Hreplica Hdecr Hne Hctl Hrun.
  assert (PendingRestartForDecrease r = true
          ∧ PendingRestart r = areAllParamsUpdated decreasedValues pgControldataParams)
    as [HforDecrease Hflag].
  { destruct (GetStatus_inv _ _ _ _ _ Hrw Hrun)
      as [(_ & _ & [Hno|[e He]])
         |(_ & row' & r1 & err1 & tr0 & tr1 & Hrow' & H1 & Hrest)];
      [done | congruence |].
    rewrite Hrow in Hrow'. injection Hrow' as <-. rewrite Hpending in H1.
    apply updateResultForDecrease_fields in H1 as [Hprim Hupd].
    destruct (Hupd _ _ Hdecr Hne Hreplica Hctl) as (-> & HforDecrease & Hflag).
    destruct Hrest as (r2 & err2 & tr2 & Hfill & _ & Hp & Hd & _).
    apply fillStatus_fields in Hfill as (_ & Hp2 & Hd2 & _).
    split; congruence. }
  split; [done|]. rewrite Hflag. split.
  - intros (setting & newValue & Hs & Hdiff).
    destruct (areAllParamsUpdated _ _) eqn:Hall; [|done].
    exfalso. apply Hdiff. by apply (proj1 (areAllParamsUpdated_spec _ _) Hall).
  - intros Hall. by apply areAllParamsUpdated_spec.
Qed.

Lemma positionOrder_irrefl x : Less (LSNOrder := positionOrder) x x = false.
Proof. simpl. destruct (walPosition x); [apply N.ltb_irrefl | done]. Qed.

(** C2 on the replica [p-2], where [max_connections] goes down to 90: the
    flag is masked while the control data still says 100 and shown once
    it says 90. *)
Lemma pending_restart_waits_for_control_data_witness :
  (∃ r tr,
     run (GetStatus (order := positionOrder) replicaInstance
            (replicaEnv "100" "0/3000060" "0/3000000" (inl true)))
     = (Returned (Some r, None), tr)
     ∧ PendingRestartForDecrease r = true ∧ PendingRestart r = false)
  ∧ (∃ r tr,
       run (GetStatus (order := positionOrder) replicaInstance
              (replicaEnv "90" "0/3000060" "0/3000000" (inl true)))
       = (Returned (Some r, None), tr)
       ∧ PendingRestartForDecrease r = true ∧ PendingRestart r = true).
Proof.
  split.
  - eexists _, _. split; [vm_compute; reflexivity|].
    destruct (pending_restart_waits_for_control_data (order := positionOrder)
                replicaInstance (replicaEnv "100" "0/3000060" "0/3000000" (inl true))
                _ (<["max_connections" := "90"]> ∅) {["max_connections" := "100"]}
                _ None _
                eq_refl eq_refl eq_refl eq_refl eq_refl eq_refl
                (insert_non_empty _ _ _) eq_refl eq_refl) as (Hd & Hmask & _).
    split; [exact Hd|]. apply Hmask.
    exists "max_connections", "90". split; [apply lookup_insert_eq|].
    vm_compute. discriminate.
  - eexists _, _. split; [vm_compute; reflexivity|].
    destruct (pending_restart_waits_for_control_data (order := positionOrder)
                replicaInstance (replicaEnv "90" "0/3000060" "0/3000000" (inl true))
                _ (<["max_connections" := "90"]> ∅) {["max_connections" := "90"]}
                _ None _
                eq_refl eq_refl eq_refl eq_refl eq_refl eq_refl
                (insert_non_empty _ _ _) eq_refl eq_refl) as (Hd & _ & Hshow).
    split; [exact Hd|]. apply Hshow.
    intros setting newValue Hs.
    apply lookup_insert_Some in Hs as [[<- <-]|[_ Hs]]; [reflexivity|].
    by rewrite lookup_empty in Hs.
Defined.

(** C3.  In a snapshot the probe returns for a replica the received LSN
    is not less than the replayed one: the replayed LSN is the raw read,
    and the received LSN is the raw read unless that was less than the
    replayed one, in which case it is the replayed one.  The comparison
    is any that finds no LSN less than itself. *)
Theorem received_lsn_clamped_to_replayed `{order : LSNOrder} instance env r tr :
  (∀ lsn, Less lsn lsn = false) →
  run (GetStatus instance env) = (Returned (Some r, None), tr) →
  IsPrimary r = false →
  Less (ReceivedLsn r) (ReplayLsn r) = false
  ∧ (PgRewindIsRunning instance = false →
     ∃ row, replicaRow env = inl row
            ∧ ReplayLsn r = rowReplayLsn row
            ∧ ReceivedLsn r =
                (if Less (rowReceivedLsn row) (rowReplayLsn row)
                 then rowReplayLsn row else rowReceivedLsn row)).
Proof.
  intros Hirr Hrun Hreplica.
  destruct (PgRewindIsRunning instance) eqn:Hrw.
  { unfold run, GetStatus in Hrun. rewrite Hrw in Hrun. injection Hrun as <- <-.
    split; [apply Hirr | done]. }
  destruct (GetStatus_inv _ _ _ _ _ Hrw Hrun)
    as [(_ & Herr & _)|(_ & row & r1 & err1 & tr0 & tr1 & Hrow & H1 & Hrest)]; [done|].
  destruct err1 as [e|]; [by destruct Hrest|].
  destruct Hrest as (r2 & err2 & tr2 & Hfill & Hp & _ & _ & Hrecv & Hplay & Herr2).
  apply fillStatus_fields in Hfill as (Hp2 & _ & _ & Hlsn).
  destruct (Hlsn ltac:(congruence) (Herr2 eq_refl)) as (rrow & Hrrow & Hplay2 & Hrecv2).
  assert (∃ row, replicaRow env = inl row
            ∧ ReplayLsn r = rowReplayLsn row
            ∧ ReceivedLsn r =
                (if Less (rowReceivedLsn row) (rowReplayLsn row)
                 then rowReplayLsn row else rowReceivedLsn row)) as Hclamp.
  { exists rrow. split; [done|]. split; congruence. }
  split; [|done].
  destruct Hclamp as (row' & _ & -> & ->).
  destruct (Less (rowReceivedLsn row') (rowReplayLsn row')) eqn:HL; [apply Hirr | done].
Qed.

(** C3 on the replica [p-2] with LSNs compared as positions: received
    [0/2000000] was read before replayed [0/3000060]. *)
Lemma received_lsn_clamped_to_replayed_witness :
  ∃ r tr,
    run (GetStatus (order := positionOrder) replicaInstance
           (replicaEnv "90" "0/2000000" "0/3000060" (inl true)))
    = (Returned (Some r, None), tr)
    ∧ ReceivedLsn r = "0/3000060" ∧ ReplayLsn r = "0/3000060"
    ∧ Less (LSNOrder := positionOrder) (ReceivedLsn r) (ReplayLsn r) = false.
Proof.
  eexists _, _. split; [vm_compute; reflexivity|].
  split; [reflexivity|]. split; [reflexivity|].
  eapply (received_lsn_clamped_to_replayed (order := positionOrder) replicaInstance
            (replicaEnv "90" "0/2000000" "0/3000060" (inl true)) _ _
            positionOrder_irrefl eq_refl eq_refl).
Defined.

(** C7 as stated fails: when the query on [pg_stat_wal_receiver] fails,
    the probe returns its error together with the snapshot filled in up
    to that point. *)
Lemma GetStatus_failure_returns_partial_snapshot :
  ∃ r tr,
    run (GetStatus (order := positionOrder) replicaInstance
           (replicaEnv "90" "0/3000060" "0/3000000"
              (inr (NewError "connection reset"))))
    = (Returned (Some r, Some (NewError "connection reset")), tr)
    ∧ failures tr = [ {| call := QueryWalReceiver;
                         failure := Some (NewError "connection reset") |} ]
    ∧ SystemID r = "7001"
    ∧ PendingRestart r = true
    ∧ ReceivedLsn r = "0/3000060".
Proof. eexists _, _. split; [vm_compute; reflexivity|]. repeat split. Qed.

(** C7, amended.  A request of the probe that fails, other than the query
    on [pg_stat_replication], is the last request of the probe, no
    request before it failed, and the probe returns its error, with the
    snapshot as it stands. *)
Theorem GetStatus_stops_at_failed_request `{order : LSNOrder} instance env out tr ev :
  run (GetStatus instance env) = (out, tr) →
  ev ∈ tr →
  failure ev ≠ None →
  call ev ≠ QueryReplication →
  ∃ snapshot e tr0,
    out = Returned (Some snapshot, Some e)
    ∧ failure ev = Some e
    ∧ tr = tr0 ++ [ev]
    ∧ failures tr0 = [].
Proof.
  intros Hrun Hin Hfail Hcall.
  destruct (disciplined_run _ _ (disciplined_GetStatus instance env) []) as [Heq Hv].
  rewrite Hrun in Heq, Hv. simpl in Heq, Hv. clear Heq.
  assert (Hlast : ∀ P e, abortedAt P e tr →
            ∃ tr0 c, tr = tr0 ++ [ {| call := c; failure := Some e |} ] ∧ P c
                     ∧ failures tr0 = []
                     ∧ ev = {| call := c; failure := Some e |}).
  { intros P e (tr0 & c & -> & HP & H0). exists tr0, c. repeat split; try done.
    apply elem_of_app in Hin as [Hin|Hin].
    - by apply (failures_nil_elem _ _ H0) in Hin.
    - by apply list_elem_of_singleton in Hin. }
  destruct out as [[snapshot err]|].
  - assert (is_Some snapshot) as [s ->].
    { destruct (PgRewindIsRunning instance) eqn:Hrw.
      - unfold run, GetStatus in Hrun. rewrite Hrw in Hrun. injection Hrun as <- _ _. eauto.
      - clear -Hrun Hrw. unfold run, GetStatus in Hrun. rewrite Hrw in Hrun.
        unfold bind, requestErr, request, requestPair, ret in Hrun.
        repeat (case_match; simplify_eq; eauto). }
    simpl in Hv. destruct err as [e|].
    + destruct (Hlast _ _ Hv) as (tr0 & c & -> & _ & H0 & ->).
      by exists s, e, tr0.
    + by apply (failures_nil_elem _ _ Hv) in Hin.
  - destruct Hv as [e Hv]. destruct (Hlast _ _ Hv) as (tr0 & c & -> & -> & _ & ->). done.
Qed.

(** C7, amended, at the failed query on [pg_stat_wal_receiver]. *)
Lemma GetStatus_stops_at_failed_request_witness :
  let env := replicaEnv "90" "0/3000060" "0/3000000" (inr (NewError "connection reset")) in
  let ev := {| call := QueryWalReceiver; failure := Some (NewError "connection reset") |} in
  ∃ snapshot tr0,
    run (GetStatus (order := positionOrder) replicaInstance env)
    = (Returned (Some snapshot, Some (NewError "connection reset")), tr0 ++ [ev])
    ∧ failures tr0 = [].
Proof.
  intros env ev.
  destruct (GetStatus_stops_at_failed_request (order := positionOrder) replicaInstance env
              _ _ ev eq_refl) as (snapshot & e & tr0 & Hout & He & Htr & H0).
  - vm_compute. repeat first [apply list_elem_of_here | apply list_elem_of_further].
  - discriminate.
  - discriminate.
  - exists snapshot, tr0. injection He as <-.
    split; [|exact H0]. unfold run. rewrite <- Htr.
    rewrite (surjective_pairing (GetStatus replicaInstance env [])). f_equal. exact Hout.
Defined.

(** The query of [fillWalStatus] is the one request whose failure is not
    handed on: the probe panics on the nil rows. *)
Example GetStatus_panics_on_failed_replication_query :
  fst (run (GetStatus (order := positionOrder) replicaInstance
              (brokenReplicationEnv (NewError "connection reset"))))
  = Panicked.
Proof. vm_compute; reflexivity. Qed.

(** C10.  While [pg_rewind] runs on the instance the probe makes no
    request at all and returns, without error, the snapshot it starts
    from, the pod name and the version of the instance manager, with the
    indicator of the running rewind set and every other field at its zero
    value. *)
Theorem GetStatus_during_rewind `{order : LSNOrder} instance env :
  PgRewindIsRunning instance = true →
  run (GetStatus instance env)
  = (Returned
       (Some {| Pod := PodName instance; InstanceManagerVersion := Version env;
                IsPgRewindRunning := true;
                SystemID := ""; IsPrimary := false;
                PendingRestart := false; PendingRestartForDecrease := false;
                TotalInstanceSize := "";
                LastArchivedWAL := ""; LastArchivedWALTime := "";
                LastFailedWAL := ""; LastFailedWALTime := "";
                IsArchivingWAL := false; CurrentWAL := "";
                CurrentLsn := ""; TimeLineID := 0;
                ReceivedLsn := ""; ReplayLsn := "";
                ReplayPaused := false; IsWalReceiverActive := false;
                ReplicationInfo := None; ReadyWALFiles := 0;
                InstanceArch := ""; ExecutableHash := "";
                IsInstanceManagerUpgrading := false |},
        None),
     []).
Proof. intros Hrw. unfold run, GetStatus. rewrite Hrw. reflexivity. Qed.

(** C10 on [p-2] during a rewind, with an engine that would answer. *)
Lemma GetStatus_during_rewind_witness :
  ∃ r,
    run (GetStatus (order := positionOrder) rewindingInstance
           (replicaEnv "90" "0/3000060" "0/3000000" (inl true)))
    = (Returned (Some r, None), [])
    ∧ IsPgRewindRunning r = true ∧ SystemID r = "" ∧ Pod r = "p-2".
Proof.
  eexists. split.
  - apply (GetStatus_during_rewind (order := positionOrder) rewindingInstance
             (replicaEnv "90" "0/3000060" "0/3000000" (inl true)) eq_refl).
  - repeat split.
Defined.

End probes_claims.

Module configfile_facts.

Import configuration configfile.

Lemma optionKeys_app options l1 l2 :
  optionKeys options (l1 ++ l2) = optionKeys options l1 ++ optionKeys options l2.
Proof. apply omap_app. Qed.

Lemma elem_of_optionKeys options lines key :
  key ∈ optionKeys options lines
  ↔ ∃ value, Assign key value ∈ lines ∧ is_Some (options !! key).
Proof.
  unfold optionKeys. rewrite list_elem_of_omap. split.
  - intros ([k v|raw] & Hin & Hk); [|done].
    destruct (options !! k) eqn:Hop; [|done]. injection Hk as <-. eauto.
  - intros (value & Hin & [nv Hnv]). exists (Assign key value). split; [done|].
    by rewrite Hnv.
Qed.

Lemma valuesSet_app options l1 l2 :
  valuesSet options l1 → valuesSet options l2 → valuesSet options (l1 ++ l2).
Proof.
  intros H1 H2 key value Hin. apply elem_of_app in Hin as [Hin|Hin]; eauto.
Qed.

(** What the walk leaves: the values of the options, each key of the
    options at most once and none that was met before, and no assignment
    of another key that was not in the input. *)
Lemma rewriteLines_spec options foundKeys lines resultContent foundKeys' :
  rewriteLines options foundKeys lines = (resultContent, foundKeys') →
  valuesSet options resultContent
  ∧ NoDup (optionKeys options resultContent)
  ∧ (∀ key, key ∈ optionKeys options resultContent → key ∉ foundKeys)
  ∧ foundKeys' = foundKeys ∪ list_to_set (optionKeys options resultContent)
  ∧ (∀ l, l ∈ resultContent →
       l ∈ lines ∨ ∃ key, l = Assign key (default "" (options !! key))
                          ∧ is_Some (options !! key)).
Proof.
  revert foundKeys resultContent foundKeys'.
  induction lines as [|[key value|raw] rest IH]; intros found body found'; simpl.
  - intros [= <- <-]. repeat split.
    + intros ? ? Hin. by apply elem_of_nil in Hin.
    + constructor.
    + intros ? Hin. by apply elem_of_nil in Hin.
    + simpl. set_solver.
    + intros ? Hin. by apply elem_of_nil in Hin.
  - destruct (options !! key) as [newValue|] eqn:Hop.
    + destruct (decide (key ∈ found)) as [Hfound|Hfound].
      * intros H. apply IH in H as (Hv & Hnd & Hfresh & -> & Hfrom).
        repeat split; try done.
        intros l Hl. destruct (Hfrom l Hl) as [?|?]; [left; by apply list_elem_of_further | by right].
      * destruct (rewriteLines options ({[key]} ∪ found) rest) as [body1 found1] eqn:Hrest.
        intros [= <- <-]. apply IH in Hrest as (Hv & Hnd & Hfresh & -> & Hfrom).
        assert (key ∉ optionKeys options body1) as Hnew.
        { intros Hin. apply Hfresh in Hin. set_solver. }
        repeat split.
        -- intros k v Hin nv Hk. apply elem_of_cons in Hin as [[= -> ->]|Hin]; [congruence|].
           by eapply Hv.
        -- simpl. rewrite Hop. by constructor.
        -- intros k. simpl. rewrite Hop. intros Hin.
           apply elem_of_cons in Hin as [->|Hin]; [done|].
           apply Hfresh in Hin. set_solver.
        -- simpl. rewrite Hop. simpl. set_solver.
        -- intros l Hl. apply elem_of_cons in Hl as [->|Hl].
           ++ right. exists key. rewrite Hop. eauto.
           ++ destruct (Hfrom l Hl) as [?|?]; [left; by apply list_elem_of_further | by right].
    + destruct (rewriteLines options found rest) as [body1 found1] eqn:Hrest.
      intros [= <- <-]. apply IH in Hrest as (Hv & Hnd & Hfresh & -> & Hfrom).
      repeat split.
      * intros k v Hin nv Hk. apply elem_of_cons in Hin as [[= -> ->]|Hin]; [congruence|].
        by eapply Hv.
      * simpl. by rewrite Hop.
      * simpl. by rewrite Hop.
      * simpl. by rewrite Hop.
      * intros l Hl. apply elem_of_cons in Hl as [->|Hl]; [left; apply list_elem_of_here|].
        destruct (Hfrom l Hl) as [?|?]; [left; by apply list_elem_of_further | by right].
  - destruct (rewriteLines options found rest) as [body1 found1] eqn:Hrest.
    intros [= <- <-]. apply IH in Hrest as (Hv & Hnd & Hfresh & -> & Hfrom).
    repeat split; try done.
    + intros k v Hin nv Hk. apply elem_of_cons in Hin as [[=]|Hin]. by eapply Hv.
    + intros l Hl. apply elem_of_cons in Hl as [->|Hl]; [left; apply list_elem_of_here|].
      destruct (Hfrom l Hl) as [?|?]; [left; by apply list_elem_of_further | by right].
Qed.

(** The walk changes nothing in lines that are already as it leaves them. *)
Lemma rewriteLines_fixed options foundKeys lines :
  valuesSet options lines →
  NoDup (optionKeys options lines) →
  (∀ key, key ∈ optionKeys options lines → key ∉ foundKeys) →
  rewriteLines options foundKeys lines
  = (lines, foundKeys ∪ list_to_set (optionKeys options lines)).
Proof.
  revert foundKeys. induction lines as [|[key value|raw] rest IH]; intros found Hv Hnd Hfresh; simpl.
  - f_equal. set_solver.
  - assert (valuesSet options rest) as Hv'.
    { intros k v Hin. apply (Hv k v). by apply list_elem_of_further. }
    simpl in Hnd, Hfresh. destruct (options !! key) as [newValue|] eqn:Hop.
    + apply NoDup_cons in Hnd as [Hnew Hnd].
      destruct (decide (key ∈ found)) as [Hfound|Hfound].
      { exfalso. apply (Hfresh key); [apply list_elem_of_here | done]. }
      rewrite IH; [|done|done|].
      * rewrite (Hv key value (list_elem_of_here _ _) newValue Hop).
        f_equal. simpl. set_solver.
      * intros k Hk. assert (k ∉ found) by (apply Hfresh; by apply list_elem_of_further).
        set_solver.
    + rewrite IH; done.
  - assert (valuesSet options rest) as Hv'.
    { intros k v Hin. apply (Hv k v). by apply list_elem_of_further. }
    rewrite IH; done.
Qed.

Lemma elem_of_missingLines options foundKeys l :
  l ∈ missingLines options foundKeys
  ↔ ∃ key value, l = Assign key value ∧ options !! key = Some value ∧ key ∉ foundKeys.
Proof.
  unfold missingLines. rewrite list_elem_of_fmap. split.
  - intros ([k v] & -> & Hin). apply list_elem_of_filter in Hin as [Hfresh Hin].
    apply elem_of_map_to_list in Hin. by exists k, v.
  - intros (k & v & -> & Hop & Hfresh). exists (k, v). split; [done|].
    apply list_elem_of_filter. split; [done|]. by apply elem_of_map_to_list.
Qed.

Lemma optionKeys_missingLines options foundKeys :
  optionKeys options (missingLines options foundKeys)
  = (filter (fun kv => kv.1 ∉ foundKeys) (map_to_list options)).*1.
Proof.
  unfold missingLines.
  assert (∀ l : list (string * string), (∀ kv, kv ∈ l → options !! kv.1 = Some kv.2) →
            optionKeys options (map (fun kv => Assign kv.1 kv.2) l) = l.*1) as Hgen.
  { induction l as [|[k v] l IH]; intros Hl; [done|]. simpl.
    pose proof (Hl (k, v) (list_elem_of_here _ _)) as Hkv. simpl in Hkv.
    rewrite Hkv. simpl. f_equal. apply IH.
    intros kv Hin. apply Hl. by apply list_elem_of_further. }
  apply Hgen. intros [k v] Hin. apply list_elem_of_filter in Hin as [_ Hin].
  by apply elem_of_map_to_list in Hin.
Qed.

Lemma NoDup_optionKeys_missingLines options foundKeys :
  NoDup (optionKeys options (missingLines options foundKeys)).
Proof.
  rewrite optionKeys_missingLines.
  eapply sublist_NoDup; [apply (NoDup_fst_map_to_list options)|].
  apply fmap_sublist, sublist_filter.
Qed.

Lemma missingLines_nil options foundKeys :
  (∀ key, is_Some (options !! key) → key ∈ foundKeys) →
  missingLines options foundKeys = [].
Proof.
  intros Hall. destruct (missingLines options foundKeys) as [|l ls] eqn:Hm; [done|].
  assert (l ∈ missingLines options foundKeys) as Hin by (rewrite Hm; apply list_elem_of_here).
  apply elem_of_missingLines in Hin as (k & v & _ & Hop & Hfresh).
  exfalso. apply Hfresh, Hall. eauto.
Qed.

(** Updating twice with the same options is updating once. *)
Lemma UpdateConfigurationContents_idempotent content options :
  UpdateConfigurationContents (UpdateConfigurationContents content options) options
  = UpdateConfigurationContents content options.
Proof.
  unfold UpdateConfigurationContents.
  destruct (rewriteLines options ∅ content) as [body found] eqn:Hwalk.
  apply rewriteLines_spec in Hwalk as (Hv & Hnd & _ & -> & _).
  set (found := ∅ ∪ list_to_set (optionKeys options body)).
  set (updated := body ++ missingLines options found).
  assert (rewriteLines options ∅ updated
          = (updated, ∅ ∪ list_to_set (optionKeys options updated))) as ->.
  { apply rewriteLines_fixed.
    - apply valuesSet_app; [done|].
      intros k v Hin nv Hk.
      apply elem_of_missingLines in Hin as (k' & v' & [= -> ->] & Hop & _). congruence.
    - unfold updated. rewrite optionKeys_app. apply NoDup_app. split; [done|]. split.
      + intros k Hin Hin2. apply elem_of_optionKeys in Hin2 as (v & Hm & _).
        apply elem_of_missingLines in Hm as (k' & v' & [= -> ->] & _ & Hfresh).
        unfold found in Hfresh. set_solver.
      + apply NoDup_optionKeys_missingLines.
    - intros k _. set_solver. }
  rewrite (missingLines_nil options (∅ ∪ list_to_set (optionKeys options updated)));
    [by rewrite app_nil_r|].
  intros key [value Hop]. unfold updated.
  rewrite optionKeys_app, elem_of_union, !elem_of_list_to_set.
  right. apply elem_of_app.
  destruct (decide (key ∈ optionKeys options body)) as [Hin|Hout]; [by left|].
  right. apply elem_of_optionKeys. exists value.
  split; [|eauto]. apply elem_of_missingLines. exists key, value.
  unfold found. set_solver.
Qed.

(** The lines of an updated file assign a key outside the options only
    if the file did so before. *)
Lemma UpdateConfigurationContents_other content options key value :
  Assign key value ∈ UpdateConfigurationContents content options →
  options !! key = None →
  Assign key value ∈ content.
Proof.
  unfold UpdateConfigurationContents.
  destruct (rewriteLines options ∅ content) as [body found] eqn:Hwalk.
  apply rewriteLines_spec in Hwalk as (_ & _ & _ & _ & Hfrom).
  intros Hin Hnone. apply elem_of_app in Hin as [Hin|Hin].
  - destruct (Hfrom _ Hin) as [?|(k & [= -> ->] & [? ?])]; [done | congruence].
  - apply elem_of_missingLines in Hin as (k & v & [= -> ->] & ? & _). congruence.
Qed.

(** Every option is assigned, with its value, in an updated file. *)
Lemma UpdateConfigurationContents_sets content options key value :
  options !! key = Some value →
  Assign key value ∈ UpdateConfigurationContents content options
  ∧ ∀ other, Assign key other ∈ UpdateConfigurationContents content options →
             other = value.
Proof.
  intros Hop. unfold UpdateConfigurationContents.
  destruct (rewriteLines options ∅ content) as [body found] eqn:Hwalk.
  apply rewriteLines_spec in Hwalk as (Hv & _ & _ & -> & _). split.
  - destruct (decide (key ∈ optionKeys options body)) as [Hin|Hout].
    + apply elem_of_optionKeys in Hin as (v & Hin & _).
      rewrite (Hv _ _ Hin _ Hop) in Hin. apply elem_of_app. by left.
    + apply elem_of_app. right. apply elem_of_missingLines. exists key, value. set_solver.
  - intros other Hin. apply elem_of_app in Hin as [Hin|Hin].
    + by apply (Hv _ _ Hin).
    + apply elem_of_missingLines in Hin as (k & v & [= -> ->] & ? & _). congruence.
Qed.

Lemma elem_of_removeUnsetOptions current options managedOptions l :
  l ∈ removeUnsetOptions current options managedOptions
  ↔ l ∈ current
    ∧ ∀ option, option ∈ managedOptions → options !! option = None →
                assigns option l = false.
Proof.
  unfold removeUnsetOptions. revert current.
  induction managedOptions as [|m ms IH]; intros current; simpl.
  - split; [|tauto]. intros Hin. split; [done|]. intros ? Hm. by apply elem_of_nil in Hm.
  - rewrite IH. destruct (options !! m) eqn:Hop.
    + split; intros [Hin Hall]; (split; [done|]).
      * intros o Ho. apply elem_of_cons in Ho as [->|Ho]; [congruence | by apply Hall].
      * intros o Ho. apply Hall. by apply list_elem_of_further.
    + unfold RemoveOptionFromConfigurationContents. rewrite list_elem_of_filter.
      split.
      * intros [[Hm Hin] Hall]. split; [done|].
        intros o Ho. apply elem_of_cons in Ho as [->|Ho]; [done | by apply Hall].
      * intros [Hin Hall]. split; [split; [|done]|].
        -- apply Hall; [apply list_elem_of_here | done].
        -- intros o Ho. apply Hall. by apply list_elem_of_further.
Qed.

Lemma removeUnsetOptions_id current options managedOptions :
  (∀ l option, l ∈ current → option ∈ managedOptions → options !! option = None →
               assigns option l = false) →
  removeUnsetOptions current options managedOptions = current.
Proof.
  unfold removeUnsetOptions. revert current.
  induction managedOptions as [|m ms IH]; intros current Hall; simpl; [done|].
  assert (∀ l option, l ∈ current → option ∈ ms → options !! option = None →
                      assigns option l = false) as Hrest.
  { intros l o Hl Ho. apply Hall; [done | by apply list_elem_of_further]. }
  destruct (options !! m) eqn:Hop; [by apply IH|].
  assert (RemoveOptionFromConfigurationContents current m = current) as ->; [|by apply IH].
  unfold RemoveOptionFromConfigurationContents.
  assert (∀ l, l ∈ current → assigns m l = false) as Hm.
  { intros l Hl. apply Hall; [done | apply list_elem_of_here | done]. }
  clear -Hm. induction current as [|l ls IHl]; [done|].
  rewrite filter_cons_True by (apply Hm, list_elem_of_here).
  f_equal. apply IHl. intros l' Hl'. apply Hm. by apply list_elem_of_further.
Qed.

(** The content the updater computes is a fixed point of the updater. *)
Lemma updatedContent_idempotent current options managedOptions :
  updatedContent (updatedContent current options managedOptions) options managedOptions
  = updatedContent current options managedOptions.
Proof.
  unfold updatedContent at 1. rewrite removeUnsetOptions_id.
  - unfold updatedContent. apply UpdateConfigurationContents_idempotent.
  - intros [key value|raw] option Hl Ho Hnone; [|done]. simpl.
    destruct (String.eqb_spec key option) as [->|Hne]; [|done]. exfalso.
    unfold updatedContent in Hl.
    apply UpdateConfigurationContents_other in Hl; [|done].
    apply elem_of_removeUnsetOptions in Hl as [_ Hl].
    specialize (Hl option Ho Hnone). simpl in Hl. by rewrite String.eqb_refl in Hl.
Qed.

(** After the updater has run on a file, running it again with the same
    options changes nothing and fails exactly if the first run did. *)
Lemma updateFile_again fileName options managedOptions d changed err d1 :
  updateFile fileName options managedOptions d = ((changed, err), d1) →
  updateFile fileName options managedOptions d1 = ((false, err), d1).
Proof.
  unfold updateFile, writeLines.
  destruct (decide (fileName ∈ faults d)) as [Hfault|Hfault].
  { intros [= <- <- <-]. by rewrite decide_True by done. }
  set (computed := updatedContent (default [] (files d !! fileName)) options managedOptions).
  assert (∀ d', faults d' = faults d → files d' !! fileName = Some computed →
            (if decide (fileName ∈ faults d')
             then ((false, Some (NewError ("cannot write " +:+ fileName))), d')
             else match files d' !! fileName with
                  | Some previous =>
                      if decide (previous
                                 = updatedContent (default [] (files d' !! fileName))
                                     options managedOptions)
                      then ((false, None), d')
                      else ((true, None),
                            withFile fileName
                              (updatedContent (default [] (files d' !! fileName))
                                 options managedOptions) d')
                  | None =>
                      ((true, None),
                       withFile fileName
                         (updatedContent (default [] (files d' !! fileName))
                            options managedOptions) d')
                  end) = ((false, None), d')) as Hagain.
  { intros d' Hf Hfile. rewrite Hf, decide_False by done. rewrite Hfile. simpl.
    unfold computed. rewrite updatedContent_idempotent. by rewrite decide_True. }
  destruct (files d !! fileName) as [previous|] eqn:Hfile.
  - destruct (decide (previous = computed)) as [Hsame|Hdiff].
    + intros [= <- <- <-]. apply Hagain; [done|]. by rewrite Hfile, Hsame.
    + intros [= <- <- <-]. apply Hagain; [done|]. simpl. apply lookup_insert_eq.
  - intros [= <- <- <-]. apply Hagain; [done|]. simpl. apply lookup_insert_eq.
Qed.

Lemma Join_inj dir name1 name2 : Join dir name1 = Join dir name2 → name1 = name2.
Proof.
  unfold Join. induction dir as [|c dir IH]; simpl.
  - intros H. by injection H.
  - intros H. injection H as H. by apply IH.
Qed.

Lemma withFile_again fileName content d :
  files d !! fileName = Some content → withFile fileName content d = d.
Proof.
  intros Hfile. destruct d as [fl vs ft]. unfold withFile. simpl in *.
  f_equal. by apply insert_id.
Qed.

End configfile_facts.

Module configuration_claims.

Import apiv1 configuration configfile configfile_facts.

(** C4.  On the modelled disk, calling [UpdateReplicaConfiguration] a
    second time with the same data directory, connection string and slot
    name reports no change, fails exactly if the first call failed, and
    leaves every file as the first call left it; and whenever the content
    the updater computes for a file is the content the file has, the
    updater reports no change and writes nothing. *)
Theorem UpdateReplicaConfiguration_idempotent `{consts : Constants}
    pgData primaryConnInfo slotName d changed1 err1 d1 changed2 err2 d2 :
  PostgresqlOverrideConfigurationFile ≠ "standby.signal" →
  UpdateReplicaConfiguration disk pgData primaryConnInfo slotName d
    = ((changed1, err1), d1) →
  UpdateReplicaConfiguration disk pgData primaryConnInfo slotName d1
    = ((changed2, err2), d2) →
  changed2 = false
  ∧ err2 = err1
  ∧ d2 = d1
  ∧ fmap (M := gmap string) (map render) (files d2)
    = fmap (M := gmap string) (map render) (files d1)
  ∧ (∀ fileName options managedOptions (d : Disk),
       fileName ∉ faults d →
       files d !! fileName
         = Some (updatedContent (default [] (files d !! fileName)) options managedOptions) →
       updateFile fileName options managedOptions d = ((false, None), d)).
Proof.
  intros Hname Hfirst Hsecond.
  assert (changed2 = false ∧ err2 = err1 ∧ d2 = d1) as (-> & -> & ->).
  { unfold UpdateReplicaConfiguration, configureRecoveryConfFile,
      configurePostgresOverrideConfFile, createStandbySignal in *. simpl in *.
    assert (versions d1 = versions d ∧ faults d1 = faults d) as [Hvs Hfs].
    { destruct (versions d !! pgData) as [major|]; [|by injection Hfirst as <- <- <-].
      destruct (major <? 12)%Z.
      - destruct (updateFile _ _ _ d) as [[c [e|]] d'] eqn:Hup; injection Hfirst as <- <- <-;
          unfold updateFile, writeLines in Hup; repeat case_match; by simplify_eq.
      - destruct (decide (_ ∈ faults d)); [by injection Hfirst as <- <- <-|].
        destruct (updateFile _ _ _ _) as [[c [e|]] d'] eqn:Hup; injection Hfirst as <- <- <-;
          unfold updateFile, writeLines in Hup; repeat case_match; by simplify_eq. }
    rewrite Hvs in Hsecond.
    destruct (versions d !! pgData) as [major|];
      [|injection Hfirst as <- <- <-; by injection Hsecond as <- <- <-].
    destruct (major <? 12)%Z.
    - destruct (updateFile _ _ _ d) as [[c e] d'] eqn:Hup.
      apply updateFile_again in Hup.
      assert (d' = d1 ∧ e = err1) as [-> ->] by (destruct e; by injection Hfirst as <- <- <-).
      rewrite Hup in Hsecond. destruct err1; by injection Hsecond as <- <- <-.
    - rewrite Hfs in Hsecond.
      destruct (decide (_ ∈ faults d)) as [Hfault|Hfault];
        [injection Hfirst as <- <- <-; by injection Hsecond as <- <- <-|].
      destruct (updateFile _ _ _ (withFile _ [] d)) as [[c e] d'] eqn:Hup.
      assert (d' = d1 ∧ e = err1) as [-> ->] by (destruct e; by injection Hfirst as <- <- <-).
      assert (files d1 !! Join pgData "standby.signal" = Some []) as Hsignal.
      { unfold updateFile, writeLines in Hup.
        assert (Join pgData "standby.signal"
                ≠ Join pgData PostgresqlOverrideConfigurationFile) as Hpaths.
        { intros Heq. apply Join_inj in Heq. congruence. }
        repeat case_match; simplify_eq; simpl;
          rewrite ?lookup_insert_ne by done; apply lookup_insert_eq. }
      rewrite (withFile_again _ _ _ Hsignal) in Hsecond.
      apply updateFile_again in Hup. rewrite Hup in Hsecond.
      destruct err1; by injection Hsecond as <- <- <-. }
  repeat split; try done.
  intros fileName options managedOptions d0 Hfault Hfile.
  unfold updateFile, writeLines. rewrite decide_False by done.
  rewrite Hfile at 1. by rewrite decide_True.
Qed.

(** C4 on a fresh data directory of version 14 and on one of version 11:
    the first call writes, the second changes nothing. *)
Lemma UpdateReplicaConfiguration_idempotent_witness :
  let conninfo := "host=p-1 user=streaming_replica port=5432" in
  (∃ d1,
     UpdateReplicaConfiguration (consts := exampleConstants) disk "/pgdata" conninfo "_cnpg_p_2"
       (freshDisk "/pgdata" 14) = ((true, None), d1)
     ∧ UpdateReplicaConfiguration (consts := exampleConstants) disk "/pgdata" conninfo "_cnpg_p_2"
         d1 = ((false, None), d1))
  ∧ (∃ d1,
       UpdateReplicaConfiguration (consts := exampleConstants) disk "/pgdata" conninfo "_cnpg_p_2"
         (freshDisk "/pgdata" 11) = ((true, None), d1)
       ∧ UpdateReplicaConfiguration (consts := exampleConstants) disk "/pgdata" conninfo "_cnpg_p_2"
           d1 = ((false, None), d1)).
Proof.
  intros conninfo.
  assert (∀ major d1 r2 d2,
            UpdateReplicaConfiguration (consts := exampleConstants) disk "/pgdata" conninfo
              "_cnpg_p_2" (freshDisk "/pgdata" major) = ((true, None), d1) →
            UpdateReplicaConfiguration (consts := exampleConstants) disk "/pgdata" conninfo
              "_cnpg_p_2" d1 = (r2, d2) →
            (r2, d2) = ((false, None), d1)) as Hsecond.
  { intros major d1 [changed2 err2] d2 H1 H2.
    destruct (UpdateReplicaConfiguration_idempotent (consts := exampleConstants)
                "/pgdata" conninfo "_cnpg_p_2" (freshDisk "/pgdata" major)
                true None d1 changed2 err2 d2 ltac:(discriminate) H1 H2)
      as (-> & -> & -> & _). reflexivity. }
  split.
  - eexists. split; [vm_compute; reflexivity|].
    match goal with
    | |- ?call = _ => destruct call as [r2 d2] eqn:H2
    end.
    eapply (Hsecond 14%Z); [vm_compute; reflexivity | exact H2].
  - eexists. split; [vm_compute; reflexivity|].
    match goal with
    | |- ?call = _ => destruct call as [r2 d2] eqn:H2
    end.
    eapply (Hsecond 11%Z); [vm_compute; reflexivity | exact H2].
Defined.

(** When the rules cannot be generated, [RefreshPGHBA] returns no error
    and writes nothing, whatever the cause and the disk. *)
Lemma RefreshPGHBA_generation_failure {S : Type} (fs : FileSystem S)
    `{consts : Constants} `{methods : ClusterMethods} `{rules : HBARules}
    instance cluster ldapBindPassword content err st :
  GeneratePostgresqlHBA instance cluster ldapBindPassword = Returned (content, Some err) →
  RefreshPGHBA fs instance cluster ldapBindPassword st = (Returned (false, None), st).
Proof. intros Hgen. unfold RefreshPGHBA. by rewrite Hgen. Qed.

(** When the rules are generated and writing them fails, [RefreshPGHBA]
    returns the error of the write. *)
Lemma RefreshPGHBA_install_failure {S : Type} (fs : FileSystem S)
    `{consts : Constants} `{methods : ClusterMethods} `{rules : HBARules}
    instance cluster ldapBindPassword content changed err st st' :
  GeneratePostgresqlHBA instance cluster ldapBindPassword = Returned (content, None) →
  WriteStringToFile fs (Join (PgData instance) PostgresqlHBARulesFile) content st
    = ((changed, Some err), st') →
  RefreshPGHBA fs instance cluster ldapBindPassword st
  = (Returned (false, Some (Wrapf "installing postgresql HBA rules" err)), st').
Proof.
  intros Hgen Hwrite. unfold RefreshPGHBA, InstallPgDataFileContent.
  by rewrite Hgen, Hwrite.
Qed.

(** C6 fails on the code.  For a cluster whose image gives no version,
    generating the rules fails with that error, and [RefreshPGHBA]
    returns [false] and no error, the disk untouched. *)
Theorem RefreshPGHBA_swallows_generation_error :
  let instance := {| PgData := "/pgdata" |} in
  let cluster := reconciler.haCluster "p-1" "p-1" ["p-1"; "p-2"] in
  GeneratePostgresqlHBA (methods := unknownVersion) (rules := exampleRules)
    instance cluster ""
  = Returned ("", Some (NewError "version not starting with a number: latest"))
  ∧ RefreshPGHBA (consts := exampleConstants) (methods := unknownVersion)
      (rules := exampleRules) disk instance cluster "" (freshDisk "/pgdata" 14)
    = (Returned (false, None), freshDisk "/pgdata" 14).
Proof. split; reflexivity. Qed.

Lemma overrideConfOptions_slot `{consts : Constants} primaryConnInfo slotName :
  overrideConfOptions primaryConnInfo slotName !! "primary_slot_name" = Some slotName.
Proof.
  unfold overrideConfOptions. destruct (negb (String.eqb primaryConnInfo "")).
  - rewrite lookup_insert_ne by done. apply lookup_insert_eq.
  - apply lookup_insert_eq.
Qed.

Lemma recoveryConfOptions_slot `{consts : Constants} primaryConnInfo slotName :
  recoveryConfOptions primaryConnInfo slotName !! "primary_slot_name"
  = (if String.eqb slotName "" then None else Some slotName).
Proof.
  unfold recoveryConfOptions.
  assert (∀ m : gmap string string,
            (if negb (String.eqb primaryConnInfo "")
             then <["primary_conninfo" := primaryConnInfo]> m else m)
              !! "primary_slot_name" = m !! "primary_slot_name") as ->.
  { intros m. destruct (negb _); [by rewrite lookup_insert_ne | done]. }
  destruct (String.eqb slotName ""); simpl.
  - by rewrite !lookup_insert_ne, lookup_empty.
  - apply lookup_insert_eq.
Qed.

(** The other failure of [RefreshPGHBA] is handed on: with rules generated
    for version 14 and a disk that refuses to write [pg_hba.conf], the
    error of the write comes back wrapped. *)
Example RefreshPGHBA_returns_write_error :
  let faulty := {| files := ∅; versions := {[ "/pgdata" := 14%Z ]};
                   faults := {[ "/pgdata/pg_hba.conf" ]} |} in
  RefreshPGHBA (consts := exampleConstants) (methods := version14)
    (rules := exampleRules) disk {| PgData := "/pgdata" |}
    (reconciler.haCluster "p-1" "p-1" ["p-1"; "p-2"]) "" faulty
  = (Returned (false,
               Some (Wrapf "installing postgresql HBA rules"
                       (NewError "cannot write /pgdata/pg_hba.conf"))),
     faulty).
Proof. vm_compute; reflexivity. Qed.

(** C9.  The options the writer for version 12 and later gives to the
    updater always hold [primary_slot_name], with the slot name as value
    even when it is empty, and it gives them for the override file; the
    options the writer for version 11 and earlier gives hold
    [primary_slot_name] exactly when the slot name is not empty, and it
    gives them for [recovery.conf]. *)
Theorem primary_slot_name_by_generation {S : Type} (fs : FileSystem S)
    `{consts : Constants} pgData primaryConnInfo slotName st :
  overrideConfOptions primaryConnInfo slotName !! "primary_slot_name" = Some slotName
  ∧ overrideConfOptions primaryConnInfo "" !! "primary_slot_name" = Some ""
  ∧ recoveryConfOptions primaryConnInfo slotName !! "primary_slot_name"
    = (if String.eqb slotName "" then None else Some slotName)
  ∧ configurePostgresOverrideConfFile fs pgData primaryConnInfo slotName st
    = (let '((changed, err), st') :=
         UpdatePostgresConfigurationFile fs
           (Join pgData PostgresqlOverrideConfigurationFile)
           (overrideConfOptions primaryConnInfo slotName) [] st in
       ((match err with Some _ => false | None => changed end, err), st'))
  ∧ configureRecoveryConfFile fs pgData primaryConnInfo slotName st
    = (let '((changed, err), st') :=
         UpdatePostgresConfigurationFile fs (Join pgData "recovery.conf")
           (recoveryConfOptions primaryConnInfo slotName)
           ["primary_slot_name"; "primary_conninfo"] st in
       ((match err with Some _ => false | None => changed end, err), st')).
Proof.
  split; [apply overrideConfOptions_slot|]. split; [apply overrideConfOptions_slot|].
  split; [apply recoveryConfOptions_slot|]. split.
  - unfold configurePostgresOverrideConfFile.
    destruct (UpdatePostgresConfigurationFile _ _ _ _ _) as [[changed [e|]] st']; done.
  - unfold configureRecoveryConfFile.
    destruct (UpdatePostgresConfigurationFile _ _ _ _ _) as [[changed [e|]] st']; done.
Qed.

(** On the modelled disk the files follow the options: after the writer
    for version 12 and later has run with an empty slot name the override
    file assigns the empty value to [primary_slot_name], and after the
    writer for version 11 and earlier has, [recovery.conf] does not
    assign it at all. *)
Lemma primary_slot_name_in_files `{consts : Constants} pgData primaryConnInfo d changed d1 :
  (configurePostgresOverrideConfFile disk pgData primaryConnInfo "" d
     = ((changed, None), d1) →
   ∃ content, files d1 !! Join pgData PostgresqlOverrideConfigurationFile = Some content
              ∧ Assign "primary_slot_name" "" ∈ content)
  ∧ (configureRecoveryConfFile disk pgData primaryConnInfo "" d
       = ((changed, None), d1) →
     ∃ content, files d1 !! Join pgData "recovery.conf" = Some content
                ∧ ∀ value, Assign "primary_slot_name" value ∉ content).
Proof.
  assert (∀ fileName options managedOptions c dd,
            updateFile fileName options managedOptions d = ((c, None), dd) →
            files dd !! fileName
            = Some (updatedContent (default [] (files d !! fileName))
                      options managedOptions)) as Hwritten.
  { intros fileName options managedOptions c dd. unfold updateFile, writeLines.
    destruct (decide (fileName ∈ faults d)); [done|].
    destruct (files d !! fileName) as [previous|] eqn:Hfile; simpl.
    - destruct (decide (previous = _)) as [Hsame|Hdiff]; intros [= <- <-].
      + by rewrite Hfile, <- Hsame.
      + simpl. apply lookup_insert_eq.
    - intros [= <- <-]. simpl. apply lookup_insert_eq. }
  split.
  - unfold configurePostgresOverrideConfFile. simpl.
    destruct (updateFile _ _ _ d) as [[c [e|]] dd] eqn:Hup; [done|].
    intros [= <- <-]. eexists. split; [by eapply Hwritten|].
    unfold updatedContent.
    apply UpdateConfigurationContents_sets. apply overrideConfOptions_slot.
  - unfold configureRecoveryConfFile. simpl.
    destruct (updateFile _ _ _ d) as [[c [e|]] dd] eqn:Hup; [done|].
    intros [= <- <-]. eexists. split; [by eapply Hwritten|].
    intros value Hin. unfold updatedContent in Hin.
    assert (recoveryConfOptions primaryConnInfo "" !! "primary_slot_name" = None) as Hnone.
    { apply (recoveryConfOptions_slot primaryConnInfo ""). }
    apply UpdateConfigurationContents_other in Hin; [|done].
    apply elem_of_removeUnsetOptions in Hin as [_ Hin].
    specialize (Hin "primary_slot_name" ltac:(apply list_elem_of_here) Hnone). done.
Qed.

End configuration_claims.

Module lifecycle_claims.

Import lifecycle.

Lemma Start_after_restarts call instance n triggers :
  Start call instance (replicate n (Command RestartSmartFast) ++ triggers)
  = (let '(state, later) := Start call instance triggers in
     (state, restartCycles instance n ++ later)).
Proof.
  induction n as [|n IH]; simpl.
  - by destruct (Start call instance triggers).
  - rewrite IH. by destruct (Start call instance triggers).
Qed.

(** C5.  From [Running], a cancelled context runs the full shutdown
    sequence with the smart-then-fast procedure on the whole stop delay
    and [Start] returns nil; a signal does the same on half the stop
    delay; the restart command calls the smart-then-fast procedure on
    the switchover delay and the supervisor goes back to [Starting]; the
    command to shut down runs the full shutdown sequence with the
    fast-then-immediate procedure and [Start] returns nil.  The same
    holds in [Start] after any number of restarts, and whatever comes
    later is not looked at once [Start] has returned. *)
Theorem Start_runs_the_shutdown_of_each_trigger call instance n rest :
  cycle call instance ContextDone
    = (Terminated None,
       [FullShutDownSequence (tryShuttingDownSmartFast (MaxStopDelay instance))])
  ∧ (∀ sig, cycle call instance (Signal sig)
      = (Terminated None,
         [FullShutDownSequence (tryShuttingDownSmartFast (MaxStopDelay instance ÷ 2))]))
  ∧ cycle call instance (Command RestartSmartFast)
    = (Starting, [Shutdown (tryShuttingDownSmartFast (MaxSwitchoverDelay instance))])
  ∧ cycle call instance (Command ShutDownFastImmediate)
    = (Terminated None,
       [FullShutDownSequence (tryShuttingDownFastImmediate (MaxStopDelay instance))])
  ∧ Start call instance (replicate n (Command RestartSmartFast) ++ ContextDone :: rest)
    = (Terminated None,
       restartCycles instance n
         ++ [RunPostgresAndWait;
             FullShutDownSequence (tryShuttingDownSmartFast (MaxStopDelay instance));
             Cancel])
  ∧ (∀ sig,
       Start call instance (replicate n (Command RestartSmartFast) ++ Signal sig :: rest)
       = (Terminated None,
          restartCycles instance n
            ++ [RunPostgresAndWait;
                FullShutDownSequence
                  (tryShuttingDownSmartFast (MaxStopDelay instance ÷ 2));
                Cancel]))
  ∧ Start call instance
      (replicate n (Command RestartSmartFast) ++ Command ShutDownFastImmediate :: rest)
    = (Terminated None,
       restartCycles instance n
         ++ [RunPostgresAndWait;
             FullShutDownSequence (tryShuttingDownFastImmediate (MaxStopDelay instance));
             Cancel])
  ∧ Start call instance (replicate n (Command RestartSmartFast) ++ [Command RestartSmartFast])
    = (Running,
       restartCycles instance n
         ++ [RunPostgresAndWait;
             Shutdown (tryShuttingDownSmartFast (MaxSwitchoverDelay instance));
             RunPostgresAndWait]).
Proof.
  repeat split; try reflexivity; intros; by rewrite Start_after_restarts.
Qed.

(** A stop delay of 30 seconds and a switchover delay of 40: a restart,
    then a signal. *)
Example Start_restart_then_signal :
  Start (fun _ => None) {| MaxStopDelay := 30; MaxSwitchoverDelay := 40 |}
    [Command RestartSmartFast; Signal "terminated"; Command RestartSmartFast]
  = (Terminated None,
     [RunPostgresAndWait; Shutdown (tryShuttingDownSmartFast 40);
      RunPostgresAndWait; FullShutDownSequence (tryShuttingDownSmartFast 15);
      Cancel]).
Proof. reflexivity. Qed.

End lifecycle_claims.
